(** * Citation value model of [cl/citations/models.py]

    A shallow embedding of the convenience classes [Citation],
    [FullCitation], [ShortformCitation], [SupraCitation] and [IdCitation],
    of the patterns they generate ([as_regex]) and of the replacement
    markup they generate ([as_html]), together with the properties of the
    specification that concern them.

    Python strings are strings of characters whose code points are below
    256 ([string], a character being its code point); integers are [Z];
    an attribute that may hold [None] is an [option]; a method that may
    raise returns a [result]. *)

From Stdlib Require Import ZArith Ascii.
From stdpp Require Import strings pretty gmap list.

Local Arguments String.append !_ _ / : simpl nomatch.

(** ** Python preliminaries *)

(** Exceptions raised by the modelled code. *)
Inductive exn : Set :=
| TypeError
| ValueError
| KeyError
| IndexError.

Inductive result (A : Type) : Type :=
| Ok (a : A)
| Raise (e : exn).
Arguments Ok {A} a.
Arguments Raise {A} e.

#[global] Instance result_ret : MRet result := fun A a => Ok a.
#[global] Instance result_bind : MBind result := fun A B f m =>
  match m with
  | Ok a => f a
  | Raise e => Raise e
  end.
#[global] Instance result_fmap : FMap result := fun A B f m =>
  match m with
  | Ok a => Ok (f a)
  | Raise e => Raise e
  end.

(** The values stored in the attributes of the citation objects. *)
Inductive pyval : Type :=
| PNone
| PInt (z : Z)
| PStr (s : string)
| PBool (b : bool)
| PStrs (l : list string).

Definition of_opt_str (o : option string) : pyval :=
  match o with Some s => PStr s | None => PNone end.
Definition of_opt_int (o : option Z) : pyval :=
  match o with Some z => PInt z | None => PNone end.
Definition of_opt_strs (o : option (list string)) : pyval :=
  match o with Some l => PStrs l | None => PNone end.

(** The double quote, and [q], which turns the single quotes of a literal
    into double quotes: the templates of the source are written below as
    they are there, with ['] standing for the double quote. *)
Definition dquote : ascii := Eval cbv in ascii_of_N 34.
Definition squote : ascii := Eval cbv in ascii_of_N 39.

Fixpoint q (s : string) : string :=
  match s with
  | EmptyString => EmptyString
  | String c r => String (if Ascii.eqb c squote then dquote else c) (q r)
  end.

Definition code (c : ascii) : N := N_of_ascii c.

Definition in_range (lo hi : N) (c : ascii) : bool :=
  ((lo <=? code c) && (code c <=? hi))%N.

Definition is_digit (c : ascii) : bool := in_range 48 57 c.
Definition is_octdigit (c : ascii) : bool := in_range 48 55 c.
Definition is_upper (c : ascii) : bool := in_range 65 90 c.
Definition is_lower (c : ascii) : bool := in_range 97 122 c.

(** [re._alphanum]: the ASCII letters and digits. *)
Definition is_alnum (c : ascii) : bool :=
  is_lower c || is_upper c || is_digit c.

Definition hex_digit (n : N) : ascii :=
  if (n <? 10)%N then ascii_of_N (48 + n) else ascii_of_N (87 + n).

Fixpoint str_has (c : ascii) (s : string) : bool :=
  match s with
  | EmptyString => false
  | String d r => Ascii.eqb c d || str_has c r
  end.

(** [str.isprintable] on a character. *)
Definition is_printable (c : ascii) : bool :=
  in_range 32 126 c || (in_range 161 255 c && negb (code c =? 173)%N).

(** [repr] of a string: the characters that are not printable are
    written as escapes. *)
Definition repr_char (quote c : ascii) : string :=
  if Ascii.eqb c quote || Ascii.eqb c "\" then String "\" (String c "")
  else if Ascii.eqb c "009" then "\t"
  else if Ascii.eqb c "010" then "\n"
  else if Ascii.eqb c "013" then "\r"
  else if negb (is_printable c) then
    String "\" (String "x" (String (hex_digit (code c / 16))
                                   (String (hex_digit (code c mod 16)) "")))
  else String c "".

Fixpoint repr_body (quote : ascii) (s : string) : string :=
  match s with
  | EmptyString => EmptyString
  | String c r => repr_char quote c +:+ repr_body quote r
  end.

Definition repr_str (s : string) : string :=
  let quote :=
    if str_has squote s && negb (str_has dquote s) then dquote else squote in
  String quote (repr_body quote s +:+ String quote "").

(** [sep.join(l)]. *)
Fixpoint join (sep : string) (l : list string) : string :=
  match l with
  | [] => ""
  | [x] => x
  | x :: r => x +:+ sep +:+ join sep r
  end.

(** [str(v)]. *)
Definition py_str (v : pyval) : string :=
  match v with
  | PNone => "None"
  | PInt z => pretty z
  | PStr s => s
  | PBool true => "True"
  | PBool false => "False"
  | PStrs l => "[" +:+ join ", " (repr_str <$> l) +:+ "]"
  end.

(** Truth value of an object, as tested by [if v:]. *)
Definition truthy (v : pyval) : bool :=
  match v with
  | PNone => false
  | PInt z => negb (z =? 0)%Z
  | PStr s => negb (String.eqb s "")
  | PBool b => b
  | PStrs l => match l with [] => false | _ => true end
  end.

(** The conversion [%d]: a number is required. *)
Definition fmt_d (v : pyval) : result string :=
  match v with
  | PInt z => Ok (pretty z)
  | PBool b => Ok (if b then "1" else "0")
  | _ => Raise TypeError
  end.

(** [template % args] for a tuple of arguments and the conversions [%s]
    and [%d]. *)
Fixpoint format_go (pct : bool) (t : string) (args : list pyval)
  : result string :=
  match t with
  | EmptyString =>
      if pct then Raise ValueError
      else match args with [] => Ok "" | _ => Raise TypeError end
  | String c r =>
      if pct then
        match args with
        | [] => Raise TypeError
        | a :: args' =>
            if Ascii.eqb c "s" then
              s ← format_go false r args'; Ok (py_str a +:+ s)
            else if Ascii.eqb c "d" then
              d ← fmt_d a; s ← format_go false r args'; Ok (d +:+ s)
            else Raise ValueError
        end
      else if Ascii.eqb c "%" then format_go true r args
      else s ← format_go false r args; Ok (String c s)
  end.

Definition format (t : string) (args : list pyval) : result string :=
  format_go false t args.

(** [template % d] for a dictionary and the conversions [%(name)s] and
    [%(name)d]. *)
Inductive fstate : Type :=
| FText
| FPercent
| FName (acc : string)
| FConv (name : string).

Fixpoint assoc (k : string) (d : list (string * pyval)) : option pyval :=
  match d with
  | [] => None
  | (k', v) :: r => if String.eqb k k' then Some v else assoc k r
  end.

Fixpoint format_dict_go (st : fstate) (t : string) (d : list (string * pyval))
  : result string :=
  match t with
  | EmptyString => match st with FText => Ok "" | _ => Raise ValueError end
  | String c r =>
      match st with
      | FText =>
          if Ascii.eqb c "%" then format_dict_go FPercent r d
          else s ← format_dict_go FText r d; Ok (String c s)
      | FPercent =>
          if Ascii.eqb c "(" then format_dict_go (FName "") r d
          else Raise TypeError
      | FName acc =>
          if Ascii.eqb c ")" then format_dict_go (FConv acc) r d
          else format_dict_go (FName (acc +:+ String c "")) r d
      | FConv name =>
          match assoc name d with
          | None => Raise KeyError
          | Some v =>
              if Ascii.eqb c "s" then
                s ← format_dict_go FText r d; Ok (py_str v +:+ s)
              else if Ascii.eqb c "d" then
                x ← fmt_d v; s ← format_dict_go FText r d; Ok (x +:+ s)
              else Raise ValueError
          end
      end
  end.

Definition format_dict (t : string) (d : list (string * pyval))
  : result string :=
  format_dict_go FText t d.

(** [re.escape] (Python 3.7 and later): a backslash before each of the
    characters of [re._special_chars_map], which are the characters
    that are special in a pattern and the six ASCII blanks; every other
    character is left as it is. A pattern that is not a string is a
    [TypeError]. *)
Definition special_chars : string := "()[]{}?*+-|^$\.&~# ".

Definition is_special (c : ascii) : bool :=
  str_has c special_chars || in_range 9 13 c.

Definition escape_char (c : ascii) : string :=
  if is_special c then String "\" (String c "") else String c "".

Fixpoint escape (s : string) : string :=
  match s with
  | EmptyString => EmptyString
  | String c r => escape_char c +:+ escape r
  end.

Definition re_escape (v : pyval) : result pyval :=
  match v with
  | PStr s => Ok (PStr (escape s))
  | _ => Raise TypeError
  end.

(** [l[i]] for a list: negative indices count from the end. *)
Definition py_index {A : Type} (l : list A) (i : pyval) : result A :=
  match i with
  | PInt z =>
      let n := Z.of_nat (length l) in
      let k := (if z <? 0 then z + n else z)%Z in
      if (k <? 0)%Z then Raise IndexError
      else match l !! Z.to_nat k with
           | Some x => Ok x
           | None => Raise IndexError
           end
  | _ => Raise TypeError
  end.

(** [[f(x) for x in l]] where [f] may raise. *)
Fixpoint traverse {A B : Type} (f : A -> result B) (l : list A)
  : result (list B) :=
  match l with
  | [] => Ok []
  | x :: r => y ← f x; ys ← traverse f r; Ok (y :: ys)
  end.

(** [enumerate(l)]. *)
Definition enumerate {A : Type} (l : list A) : list (nat * A) :=
  imap (fun i x => (i, x)) l.

(** ** The citation objects *)

(** The attributes set by [Citation.__init__]; [equality_attributes] is
    the same list in every object and is kept apart. *)
Record Citation : Type := mkCitation {
  reporter : option string;
  volume : option Z;
  page : option string;
  canonical_reporter : option string;
  lookup_index : option Z;
  extra : option string;
  defendant : option string;
  plaintiff : option string;
  court : option string;
  year : option Z;
  reporter_found : option string;
  reporter_index : option Z;
  match_url : option string;
  match_id : option Z
}.

Definition equality_attributes : list string :=
  ["reporter"; "volume"; "page"; "canonical_reporter"; "lookup_index"].

(** The keyword arguments of [Citation.__init__], [None] by default. *)
Record Kwargs : Type := mkKwargs {
  kw_canonical_reporter : option string;
  kw_lookup_index : option Z;
  kw_extra : option string;
  kw_defendant : option string;
  kw_plaintiff : option string;
  kw_court : option string;
  kw_year : option Z;
  kw_match_url : option string;
  kw_match_id : option Z;
  kw_reporter_found : option string;
  kw_reporter_index : option Z
}.

Definition no_kwargs : Kwargs :=
  mkKwargs None None None None None None None None None None None.

Definition Citation_init (reporter : option string) (page : option string)
    (volume : option Z) (kw : Kwargs) : Citation :=
  {| reporter := reporter;
     volume := volume;
     page := page;
     canonical_reporter := kw_canonical_reporter kw;
     lookup_index := kw_lookup_index kw;
     extra := kw_extra kw;
     defendant := kw_defendant kw;
     plaintiff := kw_plaintiff kw;
     court := kw_court kw;
     year := kw_year kw;
     reporter_found := kw_reporter_found kw;
     reporter_index := kw_reporter_index kw;
     match_url := kw_match_url kw;
     match_id := kw_match_id kw |}.

(** The four variants: the attributes of [Citation] and those the
    subclass adds. *)
Inductive citation : Type :=
| FullCitation (c : Citation)
| ShortformCitation (c : Citation) (antecedent_guess : string)
| SupraCitation (c : Citation) (antecedent_guess : string)
| IdCitation (c : Citation) (id_token : option string)
    (after_tokens : option (list string)) (should_linkify : bool).

Definition FullCitation_init (reporter page : option string)
    (volume : option Z) (kw : Kwargs) : citation :=
  FullCitation (Citation_init reporter page volume kw).

Definition ShortformCitation_init (reporter page : option string)
    (volume : option Z) (antecedent_guess : string) (kw : Kwargs) : citation :=
  ShortformCitation (Citation_init reporter page volume kw) antecedent_guess.

Definition SupraCitation_init (antecedent_guess : string)
    (page : option string) (volume : option Z) (kw : Kwargs) : citation :=
  SupraCitation (Citation_init None page volume kw) antecedent_guess.

Definition IdCitation_init (id_token : option string)
    (after_tokens : option (list string)) (should_linkify : bool) : citation :=
  IdCitation (Citation_init None None None no_kwargs)
    id_token after_tokens should_linkify.

Definition base (x : citation) : Citation :=
  match x with
  | FullCitation c => c
  | ShortformCitation c _ => c
  | SupraCitation c _ => c
  | IdCitation c _ _ _ => c
  end.

(** [self.__dict__]. *)
Definition Citation_dict (c : Citation) : list (string * pyval) :=
  [ ("reporter", of_opt_str (reporter c));
    ("volume", of_opt_int (volume c));
    ("page", of_opt_str (page c));
    ("canonical_reporter", of_opt_str (canonical_reporter c));
    ("lookup_index", of_opt_int (lookup_index c));
    ("extra", of_opt_str (extra c));
    ("defendant", of_opt_str (defendant c));
    ("plaintiff", of_opt_str (plaintiff c));
    ("court", of_opt_str (court c));
    ("year", of_opt_int (year c));
    ("reporter_found", of_opt_str (reporter_found c));
    ("reporter_index", of_opt_int (reporter_index c));
    ("match_url", of_opt_str (match_url c));
    ("match_id", of_opt_int (match_id c));
    ("equality_attributes", PStrs equality_attributes) ].

Definition dict_of (x : citation) : list (string * pyval) :=
  match x with
  | FullCitation c => Citation_dict c
  | ShortformCitation c ag =>
      Citation_dict c ++ [("antecedent_guess", PStr ag)]
  | SupraCitation c ag =>
      Citation_dict c ++ [("antecedent_guess", PStr ag)]
  | IdCitation c idt after lnk =>
      Citation_dict c ++
      [ ("id_token", of_opt_str idt);
        ("after_tokens", of_opt_strs after);
        ("should_linkify", PBool lnk) ]
  end.

(** [getattr(self, attr, None)]. *)
Definition getattr (x : citation) (attr : string) : pyval :=
  default PNone (assoc attr (dict_of x)).

(** ** [Citation] *)

(** [Citation.base_citation], inherited by every variant. *)
Definition base_citation (x : citation) : result string :=
  let c := base x in
  format "%d %s %s"
    [of_opt_int (volume c); of_opt_str (reporter c); of_opt_str (page c)].

Section Hashing.
(** The built-in [hash] on strings. *)
Variable hash : string -> Z.

Definition fuzzy_hash (x : citation) : Z :=
  let s :=
    fold_left (fun s attr => s +:+ py_str (getattr x attr))
      equality_attributes "" in
  hash s.

Definition fuzzy_eq (x other : citation) : bool :=
  (fuzzy_hash x =? fuzzy_hash other)%Z.
End Hashing.

Section ToModel.
(** The reporter taxonomy [reporters_db.REPORTERS], the persisted
    [cl.search.models.Citation] and [map_reporter_db_cite_type] are
    not part of this module: they are taken as given. *)
Variable entry_value : Type.
Variable REPORTERS : gmap string (list (gmap string entry_value)).
Variable get_all_field_names : list string.
Variable cite_type_enum : Type.
Variable map_reporter_db_cite_type : entry_value -> result cite_type_enum.

Record ModelCitation : Type := mkModelCitation {
  mc_kwargs : list (string * pyval);
  mc_type : option cite_type_enum
}.

Definition dict_get {V : Type} (d : gmap string V) (k : pyval) : result V :=
  match k with
  | PStr s => match d !! s with Some v => Ok v | None => Raise KeyError end
  | _ => Raise KeyError
  end.

Definition to_model (x : citation) : result ModelCitation :=
  let c :=
    mkModelCitation
      (filter (fun kv => kv.1 ∈ get_all_field_names) (dict_of x)) None in
  canon ← dict_get REPORTERS (of_opt_str (canonical_reporter (base x)));
  entry ← py_index canon (of_opt_int (lookup_index (base x)));
  cite_type ← dict_get entry (PStr "cite_type");
  ty ← map_reporter_db_cite_type cite_type;
  Ok {| mc_kwargs := mc_kwargs c; mc_type := Some ty |}.
End ToModel.

(** ** [FullCitation] *)

Definition FullCitation_as_regex (c : Citation) : result string :=
  rf ← re_escape (of_opt_str (reporter_found c));
  pg ← re_escape (of_opt_str (page c));
  format "%d(\s+)%s(\s+)%s(\s?)" [of_opt_int (volume c); rf; pg].

Definition FullCitation_as_html (c : Citation) : result string :=
  let template := q
    ("<span class='volume'>%(volume)d</span>\g<1>" +:+
     "<span class='reporter'>%(reporter)s</span>\g<2>" +:+
     "<span class='page'>%(page)s</span>\g<3>") in
  inner_html ← format_dict template (Citation_dict c);
  let span_class := "citation" in
  '(inner_html, span_class, data_attr) ←
    (if truthy (of_opt_str (match_url c)) then
       inner_html ← format (q "<a href='%s'>%s</a>")
                      [of_opt_str (match_url c); PStr inner_html];
       data_attr ← format (q " data-id='%s'") [of_opt_int (match_id c)];
       Ok (inner_html, span_class, data_attr)
     else
       Ok (inner_html, span_class +:+ " no-link", ""));
  format (q "<span class='%s'%s>%s</span>")
    [PStr span_class; PStr data_attr; PStr inner_html].

(** ** [ShortformCitation] *)

Definition ShortformCitation_as_regex (c : Citation)
    (antecedent_guess : string) : result string :=
  ag ← re_escape (PStr antecedent_guess);
  rf ← re_escape (of_opt_str (reporter_found c));
  pg ← re_escape (of_opt_str (page c));
  format "%s(\s+)%d(\s+)%s(,?)(\s+)at(\s+)%s(\s?)"
    [ag; of_opt_int (volume c); rf; pg].

Definition ShortformCitation_as_html (c : Citation)
    (antecedent_guess : string) : result string :=
  let inner_html := q
    ("<span class='volume'>%(volume)d</span>\g<2>" +:+
     "<span class='reporter'>%(reporter)s</span>\g<3>\g<4>at\g<5>" +:+
     "<span class='page'>%(page)s</span>\g<6>") in
  inner_html ← format_dict inner_html
    (dict_of (ShortformCitation c antecedent_guess));
  let span_class := "citation" in
  '(inner_html, span_class, data_attr) ←
    (if truthy (of_opt_str (match_url c)) then
       inner_html ← format (q "<a href='%s'>%s</a>")
                      [of_opt_str (match_url c); PStr inner_html];
       data_attr ← format (q " data-id='%s'") [of_opt_int (match_id c)];
       Ok (inner_html, span_class, data_attr)
     else
       Ok (inner_html, span_class +:+ " no-link", ""));
  format
    (q "<span class='%s'%s><span class='antecedent_guess'>%s</span>\g<1>%s</span>")
    [PStr span_class; PStr data_attr; PStr antecedent_guess; PStr inner_html].

(** ** [SupraCitation] *)

Definition SupraCitation_as_regex (c : Citation)
    (antecedent_guess : string) : result string :=
  s ← (if truthy (of_opt_int (volume c)) then
         ag ← re_escape (PStr antecedent_guess);
         format "%s(\s+)%d(\s+)supra" [ag; of_opt_int (volume c)]
       else
         ag ← re_escape (PStr antecedent_guess);
         format "%s(\s+)supra" [ag]);
  s ← (if truthy (of_opt_str (page c)) then
         pg ← re_escape (of_opt_str (page c));
         t ← format ",(\s+)at(\s+)%s" [pg];
         Ok (s +:+ t)
       else Ok s);
  Ok (s +:+ "(\s?)").

Definition SupraCitation_as_html (c : Citation)
    (antecedent_guess : string) : result string :=
  inner_html ← format (q "<span class='antecedent_guess'>%s</span>")
                 [PStr antecedent_guess];
  inner_html ←
    (if truthy (of_opt_int (volume c)) then
       t ← format (q "\g<1><span class='volume'>%d</span>\g<2>supra")
             [of_opt_int (volume c)];
       let inner_html := inner_html +:+ t in
       if truthy (of_opt_str (page c)) then
         t ← format (q ",\g<3>at\g<4><span class='page'>%s</span>\g<5>")
               [of_opt_str (page c)];
         Ok (inner_html +:+ t)
       else Ok (inner_html +:+ "\g<3>")
     else
       let inner_html := inner_html +:+ "\g<1>supra" in
       if truthy (of_opt_str (page c)) then
         t ← format (q ",\g<2>at\g<3><span class='page'>%s</span>\g<4>")
               [of_opt_str (page c)];
         Ok (inner_html +:+ t)
       else Ok (inner_html +:+ "\g<2>"));
  let span_class := "citation" in
  '(inner_html, span_class, data_attr) ←
    (if truthy (of_opt_str (match_url c)) then
       inner_html ← format (q "<a href='%s'>%s</a>")
                      [of_opt_str (match_url c); PStr inner_html];
       data_attr ← format (q " data-id='%s'") [of_opt_int (match_id c)];
       Ok (inner_html, span_class, data_attr)
     else
       Ok (inner_html, span_class +:+ " no-link", ""));
  format (q "<span class='%s'%s>%s</span>")
    [PStr span_class; PStr data_attr; PStr inner_html].

(** ** [IdCitation] *)

Definition whitespace_regex : string := "((?:\s|</?\w+>|,)*)".

(** Iterating over [self.after_tokens]: [None] is not iterable. *)
Definition iter_tokens (after_tokens : option (list string))
  : result (list string) :=
  match after_tokens with
  | Some l => Ok l
  | None => Raise TypeError
  end.

Definition IdCitation_as_regex (id_token : option string)
    (after_tokens : option (list string)) : result string :=
  let template := whitespace_regex in
  idt ← re_escape (of_opt_str id_token);
  let template := template +:+ py_str idt in
  let template := template +:+ whitespace_regex in
  toks ← iter_tokens after_tokens;
  escaped ← traverse (fun t => py_str <$> re_escape (PStr t)) toks;
  let template := template +:+ join whitespace_regex escaped in
  let template := template +:+ "(\s?)" in
  Ok template.

Definition IdCitation_generate_after_token_html
    (after_tokens : option (list string)) : result string :=
  let template := "\g<%s>%s" in
  toks ← iter_tokens after_tokens;
  parts ← traverse
    (fun it => format template
                 [PStr (py_str (PInt (Z.of_nat it.1 + 2))); PStr it.2])
    (enumerate toks);
  let after_token_html := join "" parts in
  let after_token_html :=
    after_token_html +:+
    ("\g<" +:+ py_str (PInt (Z.of_nat (length toks) + 2)) +:+ ">") in
  Ok after_token_html.

Definition IdCitation_as_html (c : Citation) (id_token : option string)
    (after_tokens : option (list string)) (should_linkify : bool)
  : result string :=
  let span_class := "citation" in
  after_token_html ← IdCitation_generate_after_token_html after_tokens;
  '(id_string, span_class, data_attr) ←
    (if truthy (of_opt_str (match_url c)) then
       let id_string_template :=
         if should_linkify then
           q "<a href='%s'><span class='id_token'>%s</span>%s</a>"
         else
           q "<a href='%s'><span class='id_token'>%s</span></a>%s" in
       id_string ← format id_string_template
         [of_opt_str (match_url c); of_opt_str id_token;
          PStr after_token_html];
       data_attr ← format (q " data-id='%s'") [of_opt_int (match_id c)];
       Ok (id_string, span_class, data_attr)
     else
       id_string ← format (q "<span class='id_token'>%s</span>%s")
         [of_opt_str id_token; PStr after_token_html];
       Ok (id_string, span_class +:+ " no-link", ""));
  format (q "<span class='%s'%s>\g<1>%s</span>")
    [PStr span_class; PStr data_attr; PStr id_string].

(** ** Method dispatch *)

Definition as_regex (x : citation) : result string :=
  match x with
  | FullCitation c => FullCitation_as_regex c
  | ShortformCitation c ag => ShortformCitation_as_regex c ag
  | SupraCitation c ag => SupraCitation_as_regex c ag
  | IdCitation _ idt after _ => IdCitation_as_regex idt after
  end.

Definition as_html (x : citation) : result string :=
  match x with
  | FullCitation c => FullCitation_as_html c
  | ShortformCitation c ag => ShortformCitation_as_html c ag
  | SupraCitation c ag => SupraCitation_as_html c ag
  | IdCitation c idt after lnk => IdCitation_as_html c idt after lnk
  end.

(** ** Patterns: the fragment of the syntax of [re] that [as_regex] uses *)

(** [\s] and [\w] in a pattern that is a string: the whitespace and
    the alphanumeric characters of Unicode (with the underscore), here
    those below 256. *)
Definition is_space (c : ascii) : bool :=
  in_range 9 13 c || in_range 28 32 c || (code c =? 133)%N
  || (code c =? 160)%N.

Definition is_unicode_alnum (c : ascii) : bool :=
  is_alnum c || (code c =? 170)%N || in_range 178 179 c || (code c =? 181)%N
  || in_range 185 186 c || in_range 188 190 c || in_range 192 214 c
  || in_range 216 246 c || in_range 248 255 c.

Definition is_word (c : ascii) : bool :=
  is_unicode_alnum c || Ascii.eqb c "_".

Definition oct_val (c : ascii) : N := (code c - 48)%N.

Inductive token : Set :=
| TLit (c : ascii)
| TSpace
| TWord
| TOpen
| TOpenNC
| TClose
| TStar
| TPlus
| TQuest
| TBar
| TBad.

(** The lexical structure of a pattern: a backslash is read with the
    character after it; [(?:] opens a group that does not capture, any
    other [(] a capturing group. What the generated patterns never
    contain (classes in brackets, anchors, the dot, braces, the other
    escapes and group extensions) is [TBad]. *)
Fixpoint lex (p : string) : list token :=
  match p with
  | EmptyString => []
  | String c r =>
      if is_alnum c then TLit c :: lex r
      else if Ascii.eqb c "\" then
        match r with
        | EmptyString => [TBad]
        | String e r1 =>
            if is_alnum e then
              if Ascii.eqb e "s" then TSpace :: lex r1
              else if Ascii.eqb e "w" then TWord :: lex r1
              else if Ascii.eqb e "0" then
                match r1 with
                | String d1 r2 =>
                    if is_octdigit d1 then
                      match r2 with
                      | String d2 r3 =>
                          if is_octdigit d2 then
                            TLit (ascii_of_N (oct_val d1 * 8 + oct_val d2))
                            :: lex r3
                          else TLit (ascii_of_N (oct_val d1)) :: lex r2
                      | EmptyString => [TLit (ascii_of_N (oct_val d1))]
                      end
                    else TLit zero :: lex r1
                | EmptyString => [TLit zero]
                end
              else TBad :: lex r1
            else TLit e :: lex r1
        end
      else if Ascii.eqb c "(" then
        match r with
        | String c1 r1 =>
            if Ascii.eqb c1 "?" then
              match r1 with
              | String c2 r2 =>
                  if Ascii.eqb c2 ":" then TOpenNC :: lex r2
                  else TBad :: lex r1
              | EmptyString => [TBad]
              end
            else TOpen :: lex r
        | EmptyString => [TOpen]
        end
      else if Ascii.eqb c ")" then TClose :: lex r
      else if Ascii.eqb c "*" then TStar :: lex r
      else if Ascii.eqb c "+" then TPlus :: lex r
      else if Ascii.eqb c "?" then TQuest :: lex r
      else if Ascii.eqb c "|" then TBar :: lex r
      else if Ascii.eqb c "." || Ascii.eqb c "^" || Ascii.eqb c "$"
              || Ascii.eqb c "[" || Ascii.eqb c "{" then TBad :: lex r
      else TLit c :: lex r
  end.

Definition is_open (t : token) : bool :=
  match t with TOpen => true | _ => false end.

Definition count_open (ts : list token) : nat :=
  length (filter (fun t => is_open t = true) ts).

(** The number of capturing groups of a pattern: groups are numbered by
    their opening parenthesis, from 1. *)
Definition count_groups (p : string) : nat := count_open (lex p).

Inductive regex : Set :=
| Eps
| Lit (c : ascii)
| Space
| Word
| Cat (r1 r2 : regex)
| Alt (r1 r2 : regex)
| Star (r : regex)
| Plus (r : regex)
| Opt (r : regex)
| Group (r : regex).

(** A group being read: the alternatives that are complete, the items
    of the current alternative (last first), whether the last item is a
    repetition, and whether the group captures. *)
Record frame : Set := mkFrame {
  f_alts : list regex;
  f_items : list regex;
  f_rep : bool;
  f_cap : bool
}.

Definition new_frame (cap : bool) : frame := mkFrame [] [] false cap.

Definition seq_of (items : list regex) : regex :=
  match items with
  | [] => Eps
  | r :: rs => fold_left (fun acc x => Cat x acc) rs r
  end.

Definition alt_of (f : frame) : regex :=
  fold_left (fun acc x => Alt x acc) (f_alts f) (seq_of (f_items f)).

Definition close_frame (f : frame) : regex :=
  if f_cap f then Group (alt_of f) else alt_of f.

Definition push_item (r : regex) (f : frame) : frame :=
  mkFrame (f_alts f) (r :: f_items f) false (f_cap f).

Definition repeat_last (k : regex -> regex) (f : frame) : option frame :=
  if f_rep f then None
  else match f_items f with
       | [] => None
       | r :: rs => Some (mkFrame (f_alts f) (k r :: rs) true (f_cap f))
       end.

Definition next_alt (f : frame) : frame :=
  mkFrame (seq_of (f_items f) :: f_alts f) [] false (f_cap f).

Fixpoint parse_go (stack : list frame) (cur : frame) (ts : list token)
  : option regex :=
  match ts with
  | [] => match stack with [] => Some (close_frame cur) | _ => None end
  | t :: ts' =>
      match t with
      | TLit c => parse_go stack (push_item (Lit c) cur) ts'
      | TSpace => parse_go stack (push_item Space cur) ts'
      | TWord => parse_go stack (push_item Word cur) ts'
      | TOpen => parse_go (cur :: stack) (new_frame true) ts'
      | TOpenNC => parse_go (cur :: stack) (new_frame false) ts'
      | TClose =>
          match stack with
          | [] => None
          | f :: stack' => parse_go stack' (push_item (close_frame cur) f) ts'
          end
      | TStar => f ← repeat_last Star cur; parse_go stack f ts'
      | TPlus => f ← repeat_last Plus cur; parse_go stack f ts'
      | TQuest => f ← repeat_last Opt cur; parse_go stack f ts'
      | TBar => parse_go stack (next_alt cur) ts'
      | TBad => None
      end
  end.

(** [re.compile]: [None] for a pattern outside the fragment or
    malformed in it. *)
Definition compile (p : string) : option regex :=
  parse_go [] (new_frame false) (lex p).

(** The strings a pattern matches. *)
Inductive matches : regex -> string -> Prop :=
| MEps : matches Eps ""
| MLit c : matches (Lit c) (String c "")
| MSpace c : is_space c = true -> matches Space (String c "")
| MWord c : is_word c = true -> matches Word (String c "")
| MCat r1 r2 s1 s2 :
    matches r1 s1 -> matches r2 s2 -> matches (Cat r1 r2) (s1 +:+ s2)
| MAltL r1 r2 s : matches r1 s -> matches (Alt r1 r2) s
| MAltR r1 r2 s : matches r2 s -> matches (Alt r1 r2) s
| MStar0 r : matches (Star r) ""
| MStarS r s1 s2 :
    matches r s1 -> matches (Star r) s2 -> matches (Star r) (s1 +:+ s2)
| MPlus r s1 s2 :
    matches r s1 -> matches (Star r) s2 -> matches (Plus r) (s1 +:+ s2)
| MOpt0 r : matches (Opt r) ""
| MOptS r s : matches r s -> matches (Opt r) s
| MGroup r s : matches r s -> matches (Group r) s.

(** [re.search] and [re.sub] look for a match anywhere in the text. *)
Definition occurs (r : regex) (text : string) : Prop :=
  exists a m b, text = a +:+ m +:+ b /\ matches r m.

(** A matcher by derivatives. *)
Inductive dre : Set :=
| DNone
| DEps
| DLit (c : ascii)
| DSpace
| DWord
| DCat (r1 r2 : dre)
| DAlt (r1 r2 : dre)
| DStar (r : dre).

Fixpoint dre_of (r : regex) : dre :=
  match r with
  | Eps => DEps
  | Lit c => DLit c
  | Space => DSpace
  | Word => DWord
  | Cat r1 r2 => DCat (dre_of r1) (dre_of r2)
  | Alt r1 r2 => DAlt (dre_of r1) (dre_of r2)
  | Star r => DStar (dre_of r)
  | Plus r => DCat (dre_of r) (DStar (dre_of r))
  | Opt r => DAlt (dre_of r) DEps
  | Group r => dre_of r
  end.

Fixpoint nullable (r : dre) : bool :=
  match r with
  | DNone | DLit _ | DSpace | DWord => false
  | DEps | DStar _ => true
  | DCat r1 r2 => nullable r1 && nullable r2
  | DAlt r1 r2 => nullable r1 || nullable r2
  end.

Fixpoint deriv (c : ascii) (r : dre) : dre :=
  match r with
  | DNone | DEps => DNone
  | DLit d => if Ascii.eqb c d then DEps else DNone
  | DSpace => if is_space c then DEps else DNone
  | DWord => if is_word c then DEps else DNone
  | DCat r1 r2 =>
      if nullable r1 then DAlt (DCat (deriv c r1) r2) (deriv c r2)
      else DCat (deriv c r1) r2
  | DAlt r1 r2 => DAlt (deriv c r1) (deriv c r2)
  | DStar r1 => DCat (deriv c r1) (DStar r1)
  end.

Fixpoint dmatch (r : dre) (s : string) : bool :=
  match s with
  | EmptyString => nullable r
  | String c s' => dmatch (deriv c r) s'
  end.

(** Does some prefix of [s] match? *)
Fixpoint dprefix (r : dre) (s : string) : bool :=
  nullable r ||
  match s with
  | EmptyString => false
  | String c s' => dprefix (deriv c r) s'
  end.

Fixpoint dsearch (r : dre) (s : string) : bool :=
  dprefix r s ||
  match s with
  | EmptyString => false
  | String _ s' => dsearch r s'
  end.

Definition matchb (r : regex) (s : string) : bool := dmatch (dre_of r) s.
Definition searchb (r : regex) (s : string) : bool := dsearch (dre_of r) s.

(** [re.search(pattern, text) is not None]. *)
Definition re_search (pattern text : string) : option bool :=
  r ← compile pattern; Some (searchb r text).

(** ** Replacement templates and markup *)

(** The groups a replacement template refers to, by name, in the order
    of the references [\g<name>]; [None] when the template has another
    escape or an unfinished reference. *)
Inductive tstate : Set :=
| TText
| TEsc
| TG
| TName (acc : string).

Fixpoint backrefs_go (st : tstate) (t : string) : option (list string) :=
  match t with
  | EmptyString => match st with TText => Some [] | _ => None end
  | String c r =>
      match st with
      | TText =>
          if Ascii.eqb c "\" then backrefs_go TEsc r else backrefs_go TText r
      | TEsc => if Ascii.eqb c "g" then backrefs_go TG r else None
      | TG => if Ascii.eqb c "<" then backrefs_go (TName "") r else None
      | TName acc =>
          if Ascii.eqb c ">" then
            if String.eqb acc "" then None
            else cons acc <$> backrefs_go TText r
          else backrefs_go (TName (acc +:+ String c "")) r
      end
  end.

Definition backrefs (t : string) : option (list string) :=
  backrefs_go TText t.

(** The names of the groups 1 to [n]. *)
Definition group_names (n : nat) : list string :=
  (fun i => pretty (Z.of_nat i)) <$> seq 1 n.



Fixpoint starts_with (p s : string) : bool :=
  match p, s with
  | EmptyString, _ => true
  | String a p', String b s' => Ascii.eqb a b && starts_with p' s'
  | String _ _, EmptyString => false
  end.






(** The text attributes that [as_html] copies into the markup. *)
Definition text_fields (x : citation) : list string :=
  match x with
  | FullCitation c =>
      [py_str (of_opt_str (reporter c)); py_str (of_opt_str (page c))]
  | ShortformCitation c ag =>
      [ag; py_str (of_opt_str (reporter c)); py_str (of_opt_str (page c))]
  | SupraCitation c ag => [ag; py_str (of_opt_str (page c))]
  | IdCitation c idt after _ =>
      py_str (of_opt_str idt) :: default [] after
  end.

(** The attributes that [as_html] needs to be set. *)
Definition renderable (x : citation) : Prop :=
  match x with
  | FullCitation c => is_Some (volume c)
  | ShortformCitation c _ => is_Some (volume c)
  | SupraCitation _ _ => True
  | IdCitation _ _ after _ => is_Some after
  end.

(** ** Example objects *)

Definition adarand : citation :=
  FullCitation_init (Some "U.S.") (Some "200") (Some 515%Z)
    {| kw_canonical_reporter := Some "U.S.";
       kw_lookup_index := Some 0%Z;
       kw_extra := None;
       kw_defendant := Some "Constructors, Inc.";
       kw_plaintiff := Some "Adarand";
       kw_court := None;
       kw_year := Some 1995%Z;
       kw_match_url := None;
       kw_match_id := None;
       kw_reporter_found := Some "U. S.";
       kw_reporter_index := Some 5%Z |}.

Definition with_match (c : Citation) (url : string) (id : Z) : Citation :=
  {| reporter := reporter c;
     volume := volume c;
     page := page c;
     canonical_reporter := canonical_reporter c;
     lookup_index := lookup_index c;
     extra := extra c;
     defendant := defendant c;
     plaintiff := plaintiff c;
     court := court c;
     year := year c;
     reporter_found := reporter_found c;
     reporter_index := reporter_index c;
     match_url := Some url;
     match_id := Some id |}.

Definition with_reporter (c : Citation) (r : option string) : Citation :=
  {| reporter := r;
     volume := volume c;
     page := page c;
     canonical_reporter := canonical_reporter c;
     lookup_index := lookup_index c;
     extra := extra c;
     defendant := defendant c;
     plaintiff := plaintiff c;
     court := court c;
     year := year c;
     reporter_found := reporter_found c;
     reporter_index := reporter_index c;
     match_url := match_url c;
     match_id := match_id c |}.

(** ** Definitions used in the statements *)

(** *** Identity of citations, and example objects *)

(** A taxonomy with one reporter. *)
Definition sample_reporters : gmap string (list (gmap string string)) :=
  {[ "U.S." := [ {[ "cite_type" := "federal" ]} ] ]}.

(** A citation whose canonical reporter the taxonomy above does not
    have. *)
Definition cranch : citation :=
  FullCitation
    (mkCitation (Some "Cranch") (Some 22%Z) (Some "1") (Some "Cranch")
       (Some 0%Z) None None None None None (Some "Cr.") None None None).

(** Agreement on the five attributes of [equality_attributes]. *)
Definition same_identity (x y : citation) : Prop :=
  reporter (base x) = reporter (base y) /\
  volume (base x) = volume (base y) /\
  page (base x) = page (base y) /\
  canonical_reporter (base x) = canonical_reporter (base y) /\
  lookup_index (base x) = lookup_index (base y).

(** The string that [fuzzy_hash] hashes. *)
Definition fuzzy_key (x : citation) : string :=
  py_str (of_opt_str (reporter (base x))) +:+
  py_str (of_opt_int (volume (base x))) +:+
  py_str (of_opt_str (page (base x))) +:+
  py_str (of_opt_str (canonical_reporter (base x))) +:+
  py_str (of_opt_int (lookup_index (base x))).

(** 1 F. 23 and 12 F. 3. *)
Definition cite_1_23 : citation :=
  FullCitation
    (mkCitation (Some "F.") (Some 1%Z) (Some "23") None None
       None None None None None (Some "F.") None None None).

Definition cite_12_3 : citation :=
  FullCitation
    (mkCitation (Some "F.") (Some 12%Z) (Some "3") None None
       None None None None None (Some "F.") None None None).

(** The citation [adarand] met again, with another year, a court and a
    match. *)
Definition adarand_1996 : citation :=
  FullCitation
    (mkCitation (Some "U.S.") (Some 515%Z) (Some "200") (Some "U.S.")
       (Some 0%Z) None None None (Some "SCOTUS") (Some 1996%Z)
       (Some "U.S.") None (Some "/opinion/117960/") (Some 117960%Z)).

(** *** Characters of strings, and the parts of the supra pattern *)

(** All the characters of [s] satisfy [P]. *)
Fixpoint str_all (P : ascii -> bool) (s : string) : bool :=
  match s with
  | EmptyString => true
  | String c r => P c && str_all P r
  end.

Fixpoint chars (s : string) : list ascii :=
  match s with
  | EmptyString => []
  | String c r => c :: chars r
  end.

(** The characters of [str(n)] and [%d]. *)
Definition is_numeral_char (c : ascii) : bool :=
  is_digit c || Ascii.eqb c "-".

(** The tokens of literal text. *)
Definition lits (s : string) : list token := TLit <$> chars s.

(** The part of a supra pattern for the volume, and the part for the
    page. *)
Definition supra_volume_part (c : Citation) : string :=
  match volume c with
  | Some v => if (v =? 0)%Z then "" else pretty v +:+ "(\s+)"
  | None => ""
  end.

Definition supra_page_part (c : Citation) : string :=
  match page c with
  | Some p => if String.eqb p "" then "" else ",(\s+)at(\s+)" +:+ escape p
  | None => ""
  end.

(** *** The shape of the markup *)

(** The reference [\g<n>]. *)
Definition gref (n : Z) : string := "\g<" +:+ pretty n +:+ ">".

(** The opening tag of the container. *)
Definition open_tag (c : Citation) : string :=
  if truthy (of_opt_str (match_url c)) then
    q "<span class='citation' data-id='" +:+ py_str (of_opt_int (match_id c))
    +:+ q "'>"
  else q "<span class='citation no-link'>".

(** The anchor to [match_url] around [inner], and [inner] in an anchor
    when there is a [match_url]. *)
Definition anchor (c : Citation) (inner : string) : string :=
  q "<a href='" +:+ py_str (of_opt_str (match_url c)) +:+ q "'>" +:+ inner
  +:+ "</a>".

Definition link (c : Citation) (inner : string) : string :=
  if truthy (of_opt_str (match_url c)) then anchor c inner else inner.

(** [<span class="class">body</span>]. *)
Definition span (class body : string) : string :=
  q "<span class='" +:+ class +:+ q "'>" +:+ body +:+ "</span>".

(** The markup of volume, reporter and page in a full and in a short
    form citation, and the markup inside a supra citation. *)
Definition full_inner (c : Citation) (v : Z) : string :=
  span "volume" (pretty v) +:+ gref 1 +:+
  span "reporter" (py_str (of_opt_str (reporter c))) +:+ gref 2 +:+
  span "page" (py_str (of_opt_str (page c))) +:+ gref 3.

Definition shortform_inner (c : Citation) (v : Z) : string :=
  span "volume" (pretty v) +:+ gref 2 +:+
  span "reporter" (py_str (of_opt_str (reporter c))) +:+ gref 3 +:+
  gref 4 +:+ "at" +:+ gref 5 +:+
  span "page" (py_str (of_opt_str (page c))) +:+ gref 6.

Definition supra_inner (c : Citation) (ag : string) : string :=
  span "antecedent_guess" ag +:+
  (if truthy (of_opt_int (volume c)) then
     gref 1 +:+ span "volume" (py_str (of_opt_int (volume c))) +:+ gref 2 +:+
     "supra" +:+
     (if truthy (of_opt_str (page c)) then
        "," +:+ gref 3 +:+ "at" +:+ gref 4 +:+
        span "page" (py_str (of_opt_str (page c))) +:+ gref 5
      else gref 3)
   else
     gref 1 +:+ "supra" +:+
     (if truthy (of_opt_str (page c)) then
        "," +:+ gref 2 +:+ "at" +:+ gref 3 +:+
        span "page" (py_str (of_opt_str (page c))) +:+ gref 4
      else gref 2)).

(** The tokens after the id token, each after the reference to its
    group, from group [k + 2] on; then the reference to the last group. *)
Fixpoint after_refs (k : nat) (toks : list string) : string :=
  match toks with
  | [] => ""
  | t :: r => gref (Z.of_nat k + 2) +:+ t +:+ after_refs (S k) r
  end.

Definition after_token_markup (toks : list string) : string :=
  after_refs 0 toks +:+ gref (Z.of_nat (length toks) + 2).

(** The id token and what follows it, with the anchor around the id
    token alone or around both. *)
Definition id_string (c : Citation) (idt : option string) (lnk : bool)
    (after : string) : string :=
  let idspan := span "id_token" (py_str (of_opt_str idt)) in
  if truthy (of_opt_str (match_url c)) then
    if lnk then anchor c (idspan +:+ after) else anchor c idspan +:+ after
  else idspan +:+ after.

(** *** The container and the anchor *)




(** "Adarand, 515 U. S., at 241", matched and not. *)
Definition adarand_241 : Citation :=
  mkCitation (Some "U.S.") (Some 515%Z) (Some "241") None None
    None None None None None (Some "U. S.") None None None.

Definition adarand_short : citation :=
  ShortformCitation (with_match adarand_241 "/opinion/117960/" 117960)
    "Adarand,".

Definition adarand_short_unmatched : citation :=
  ShortformCitation adarand_241 "Adarand,".

(** *** Id citations *)

(** "Id., at 240", unmatched, and its markup. *)
Definition id_at_240 : citation :=
  IdCitation_init (Some "Id.") (Some ["at"; "240"]) false.

Definition id_at_240_html : string :=
  q ("<span class='citation no-link'>\g<1>" +:+
     "<span class='id_token'>Id.</span>\g<2>at\g<3>240\g<4></span>").

(** An "Id." with nothing after it. *)
Definition id_bare : citation := IdCitation_init (Some "Id.") (Some []) false.

(** No text attribute of the object, nor its [match_url], has a
    backslash. *)
Definition tidy (x : citation) : Prop :=
  Forall (fun s => str_has "\" s = false)
    (py_str (of_opt_str (match_url (base x))) :: text_fields x).

(** *** The matcher by derivatives, as a relation *)

(** The strings a [dre] matches. *)
Inductive dmatches : dre -> string -> Prop :=
| DMEps : dmatches DEps ""
| DMLit c : dmatches (DLit c) (String c "")
| DMSpace c : is_space c = true -> dmatches DSpace (String c "")
| DMWord c : is_word c = true -> dmatches DWord (String c "")
| DMCat r1 r2 s1 s2 :
    dmatches r1 s1 -> dmatches r2 s2 -> dmatches (DCat r1 r2) (s1 +:+ s2)
| DMAltL r1 r2 s : dmatches r1 s -> dmatches (DAlt r1 r2) s
| DMAltR r1 r2 s : dmatches r2 s -> dmatches (DAlt r1 r2) s
| DMStar0 r : dmatches (DStar r) ""
| DMStarS r s1 s2 :
    dmatches r s1 -> dmatches (DStar r) s2 -> dmatches (DStar r) (s1 +:+ s2).

(** *** Compiled patterns *)

(** [(\s+)], [(\s?)], [(,?)] and [whitespace_regex] as compiled. *)
Definition ws_plus : regex := Group (Plus Space).
Definition ws_opt : regex := Group (Opt Space).
Definition comma_opt : regex := Group (Opt (Lit ",")).
Definition id_wildcard : regex :=
  Group (Star (Alt Space
                 (Alt (Cat (Lit "<")
                         (Cat (Opt (Lit "/")) (Cat (Plus Word) (Lit ">"))))
                    (Lit ",")))).

(** Literal text, a character at a time. *)
Definition lit_items (s : string) : list regex := Lit <$> chars s.

(** The pattern that is the sequence of [items]. *)
Definition seq_re (items : list regex) : regex := seq_of (rev items).

(** The items [rs] read in the group [f]. *)
Definition push_items (rs : list regex) (f : frame) : frame :=
  fold_left (fun f r => push_item r f) rs f.

(** The piece [p] of a pattern is read as the items [L], whatever comes
    before and after it. *)
Definition parses_to (p : string) (L : list regex) : Prop :=
  forall st cur rest,
    parse_go st cur (lex (p +:+ rest)) = parse_go st (push_items L cur) (lex rest).

(** [s] is made of one match for each item, in order. *)
Inductive matches_seq : list regex -> string -> Prop :=
| MS_nil : matches_seq [] ""
| MS_cons r rs s1 s2 :
    matches r s1 -> matches_seq rs s2 -> matches_seq (r :: rs) (s1 +:+ s2).

(** An HTML tag as [whitespace_regex] knows it: [<name>] or [</name>]
    for a non-empty name of letters, digits and underscores. *)
Definition is_tag (t : string) : Prop :=
  exists slash name,
    t = "<" +:+ slash +:+ name +:+ ">" /\
    (slash = "" \/ slash = "/") /\
    name <> "" /\ str_all is_word name = true.

(** Runs of whitespace, commas and HTML tags. *)
Inductive ws_html_comma : string -> Prop :=
| WHC_nil : ws_html_comma ""
| WHC_space c s :
    is_space c = true -> ws_html_comma s -> ws_html_comma (String c s)
| WHC_comma s : ws_html_comma s -> ws_html_comma (String "," s)
| WHC_tag t s : is_tag t -> ws_html_comma s -> ws_html_comma (t +:+ s).

(** [</?\w+>] as compiled. *)
Definition tag_re : regex :=
  Cat (Lit "<") (Cat (Opt (Lit "/")) (Cat (Plus Word) (Lit ">"))).

(** The items of the pattern of each variant. *)
Definition full_items (v : Z) (rf p : string) : list regex :=
  lit_items (pretty v) ++ [ws_plus] ++ lit_items rf ++ [ws_plus] ++
  lit_items p ++ [ws_opt].

Definition shortform_items (ag : string) (v : Z) (rf p : string)
  : list regex :=
  lit_items ag ++ [ws_plus] ++ lit_items (pretty v) ++ [ws_plus] ++
  lit_items rf ++ [comma_opt] ++ [ws_plus] ++ lit_items "at" ++ [ws_plus] ++
  lit_items p ++ [ws_opt].

Definition supra_volume_items (c : Citation) : list regex :=
  match volume c with
  | Some v => if (v =? 0)%Z then [] else lit_items (pretty v) ++ [ws_plus]
  | None => []
  end.

Definition supra_page_items (c : Citation) : list regex :=
  match page c with
  | Some p =>
      if String.eqb p "" then []
      else lit_items "," ++ [ws_plus] ++ lit_items "at" ++ [ws_plus] ++
           lit_items p
  | None => []
  end.

Definition supra_items (c : Citation) (ag : string) : list regex :=
  lit_items ag ++ [ws_plus] ++ supra_volume_items c ++ lit_items "supra" ++
  supra_page_items c ++ [ws_opt].

Fixpoint id_after_items (toks : list string) : list regex :=
  match toks with
  | [] => []
  | [t] => lit_items t
  | t :: r => lit_items t ++ [id_wildcard] ++ id_after_items r
  end.

Definition id_items (idt : string) (toks : list string) : list regex :=
  [id_wildcard] ++ lit_items idt ++ [id_wildcard] ++ id_after_items toks ++
  [ws_opt].

(** The text of the volume and the text of the page in a match of a
    supra pattern: nothing when the object has none. *)
Definition supra_volume_text (c : Citation) (t : string) : Prop :=
  match volume c with
  | Some v =>
      if (v =? 0)%Z then t = ""
      else exists w, t = pretty v +:+ w /\ matches ws_plus w
  | None => t = ""
  end.

Definition supra_page_text (c : Citation) (t : string) : Prop :=
  match page c with
  | Some p =>
      if String.eqb p "" then t = ""
      else exists w1 w2,
          t = "," +:+ w1 +:+ "at" +:+ w2 +:+ p /\
          matches ws_plus w1 /\ matches ws_plus w2
  | None => t = ""
  end.

(** "Adarand, supra, at 240", and the patterns of the examples. *)
Definition supra_at_240 : citation :=
  SupraCitation_init "Adarand," (Some "240") None no_kwargs.

Definition adarand_pattern : string := "515(\s+)U\.\ S\.(\s+)200(\s?)".
Definition adarand_short_pattern : string :=
  "Adarand,(\s+)515(\s+)U\.\ S\.(,?)(\s+)at(\s+)241(\s?)".
Definition supra_at_240_pattern : string :=
  "Adarand,(\s+)supra,(\s+)at(\s+)240(\s?)".
Definition id_at_240_pattern : string :=
  "((?:\s|</?\w+>|,)*)Id\.((?:\s|</?\w+>|,)*)at((?:\s|</?\w+>|,)*)240(\s?)".

(** *** Printing: __repr__ *)

(** [Citation.__repr__]. *)
Definition Citation_repr (x : citation) : result string :=
  let c := base x in
  print_string ← base_citation x;
  let print_string :=
    if truthy (of_opt_str (defendant c)) then
      let print_string :=
        join " " [py_str (of_opt_str (defendant c)); print_string] in
      if truthy (of_opt_str (plaintiff c)) then
        join " " [py_str (of_opt_str (plaintiff c)); "v."; print_string]
      else print_string
    else print_string in
  let print_string :=
    if truthy (of_opt_str (extra c)) then
      join " " [print_string; py_str (of_opt_str (extra c))]
    else print_string in
  paren ←
    (if truthy (of_opt_str (court c)) && truthy (of_opt_int (year c)) then
       format "(%s %d)" [of_opt_str (court c); of_opt_int (year c)]
     else if truthy (of_opt_int (year c)) then
       format "(%d)" [of_opt_int (year c)]
     else if truthy (of_opt_str (court c)) then
       format "(%s)" [of_opt_str (court c)]
     else Ok "");
  let print_string := join " " [print_string; paren] in
  Ok print_string.

(** [ShortformCitation.__repr__]. *)
Definition ShortformCitation_repr (c : Citation) (antecedent_guess : string)
  : result string :=
  format "%s, %d %s, at %s"
    [PStr antecedent_guess; of_opt_int (volume c); of_opt_str (reporter c);
     of_opt_str (page c)].

(** [SupraCitation.__repr__]. *)
Definition SupraCitation_repr (c : Citation) (antecedent_guess : string)
  : result string :=
  format "%s supra, at %s" [PStr antecedent_guess; of_opt_str (page c)].

(** [IdCitation.__repr__]. *)
Definition IdCitation_repr (id_token : option string)
    (after_tokens : option (list string)) : result string :=
  format "%s %s" [of_opt_str id_token; of_opt_strs after_tokens].

(** [repr(x)]. *)
Definition citation_repr (x : citation) : result string :=
  match x with
  | FullCitation _ => Citation_repr x
  | ShortformCitation c ag => ShortformCitation_repr c ag
  | SupraCitation c ag => SupraCitation_repr c ag
  | IdCitation _ idt after _ => IdCitation_repr idt after
  end.

(** The objects whose [__repr__] formats the volume with [%d] have
    one. *)
Definition printable (x : citation) : Prop :=
  match x with
  | FullCitation c | ShortformCitation c _ => is_Some (volume c)
  | SupraCitation _ _ | IdCitation _ _ _ _ => True
  end.

Definition with_plaintiff (c : Citation) (p : option string) : Citation :=
  {| reporter := reporter c;
     volume := volume c;
     page := page c;
     canonical_reporter := canonical_reporter c;
     lookup_index := lookup_index c;
     extra := extra c;
     defendant := defendant c;
     plaintiff := p;
     court := court c;
     year := year c;
     reporter_found := reporter_found c;
     reporter_index := reporter_index c;
     match_url := match_url c;
     match_id := match_id c |}.

(** *** Objects and their equality *)

(** The objects of the module: the citations and [NonopinionCitation],
    which has the one attribute [match_token]. *)
Inductive object : Type :=
| Cite (x : citation)
| NonopinionCitation (match_token : string).

Definition object_dict (o : object) : list (string * pyval) :=
  match o with
  | Cite x => dict_of x
  | NonopinionCitation t => [("match_token", PStr t)]
  end.

(** [NonopinionCitation.__repr__]. *)
Definition NonopinionCitation_repr (match_token : string) : string :=
  "NonopinionCitation".

(** [v == w] on attribute values; an integer equals a boolean of the
    same value. *)
Definition py_eq (v w : pyval) : bool :=
  match v, w with
  | PNone, PNone => true
  | PInt a, PInt b => (a =? b)%Z
  | PInt a, PBool b | PBool b, PInt a => (a =? (if b then 1 else 0))%Z
  | PBool a, PBool b => Bool.eqb a b
  | PStr a, PStr b => String.eqb a b
  | PStrs a, PStrs b => bool_decide (a = b)
  | _, _ => false
  end.

(** [d1 == d2] on dictionaries: the same keys, with equal values. *)
Definition dict_eq (d1 d2 : list (string * pyval)) : bool :=
  (length d1 =? length d2) &&
  forallb (fun kv => match assoc kv.1 d2 with
                     | Some w => py_eq kv.2 w
                     | None => false
                     end) d1.


(** [__eq__] and [__ne__], the same in [Citation] and in
    [NonopinionCitation]. *)
Definition eq_ (self other : object) : bool :=
  dict_eq (object_dict self) (object_dict other).

Definition ne_ (self other : object) : bool := negb (eq_ self other).

(** *** Objects with an edition index *)

(** Adarand with the index -1, and with the index 1. *)
Definition adarand_last_edition : citation :=
  FullCitation (mkCitation (Some "U.S.") (Some 515%Z) (Some "200")
                  (Some "U.S.") (Some (-1)%Z) None None None None None
                  (Some "U. S.") None None None).

Definition adarand_no_edition : citation :=
  FullCitation (mkCitation (Some "U.S.") (Some 515%Z) (Some "200")
                  (Some "U.S.") (Some 1%Z) None None None None None
                  (Some "U. S.") None None None).

(** *** When the methods return, and the plain text of a citation *)

(** The attributes that [as_regex] needs to be set. *)
Definition regex_ready (x : citation) : Prop :=
  match x with
  | FullCitation c | ShortformCitation c _ =>
      is_Some (volume c) /\ is_Some (reporter_found c) /\ is_Some (page c)
  | SupraCitation _ _ => True
  | IdCitation _ idt after _ => is_Some idt /\ is_Some after
  end.

Definition with_reporter_found (c : Citation) (rf : option string)
  : Citation :=
  {| reporter := reporter c;
     volume := volume c;
     page := page c;
     canonical_reporter := canonical_reporter c;
     lookup_index := lookup_index c;
     extra := extra c;
     defendant := defendant c;
     plaintiff := plaintiff c;
     court := court c;
     year := year c;
     reporter_found := rf;
     reporter_index := reporter_index c;
     match_url := match_url c;
     match_id := match_id c |}.

(** The object with another [reporter_found]. *)
Definition set_reporter_found (x : citation) (rf : option string) : citation :=
  match x with
  | FullCitation c => FullCitation (with_reporter_found c rf)
  | ShortformCitation c ag => ShortformCitation (with_reporter_found c rf) ag
  | SupraCitation c ag => SupraCitation (with_reporter_found c rf) ag
  | IdCitation c idt after lnk =>
      IdCitation (with_reporter_found c rf) idt after lnk
  end.

(** The tokens of the citation as plain text, a space between them;
    [comma] puts the comma of "515 U.S., at 241" in a short form
    citation. *)
Definition plain_text (x : citation) (comma : bool) : string :=
  match x with
  | FullCitation c =>
      py_str (of_opt_int (volume c)) +:+ " " +:+
      py_str (of_opt_str (reporter_found c)) +:+ " " +:+
      py_str (of_opt_str (page c))
  | ShortformCitation c ag =>
      ag +:+ " " +:+ py_str (of_opt_int (volume c)) +:+ " " +:+
      py_str (of_opt_str (reporter_found c)) +:+
      (if comma then "," else "") +:+ " at " +:+
      py_str (of_opt_str (page c))
  | SupraCitation c ag =>
      ag +:+ " " +:+
      (if truthy (of_opt_int (volume c)) then
         py_str (of_opt_int (volume c)) +:+ " "
       else "") +:+
      "supra" +:+
      (if truthy (of_opt_str (page c)) then
         ", at " +:+ py_str (of_opt_str (page c))
       else "")
  | IdCitation _ idt after _ =>
      join " " (py_str (of_opt_str idt) :: default [] after)
  end.

(** The piece [p] of a pattern opens [n] capturing groups. *)
Definition counts (p : string) (n : nat) : Prop :=
  forall rest, count_open (lex (p +:+ rest)) = n + count_open (lex rest).

(** The number of groups of a supra pattern. *)
Definition supra_groups (c : Citation) : nat :=
  2 + (if truthy (of_opt_int (volume c)) then 1 else 0)
    + (if truthy (of_opt_str (page c)) then 2 else 0).

(** *** Id citations with a token after the id token *)

(** Some token follows the id token, when [x] is an id citation. *)
Definition has_after_token (x : citation) : Prop :=
  match x with
  | IdCitation _ _ after _ => after <> Some []
  | _ => True
  end.

(** *** The expansion of the markup for a match *)

(** The text captured by each group, under the name of the group: the
    groups are numbered from 1. *)
Definition group_env (groups : list string) : list (string * string) :=
  imap (fun i g => (pretty (Z.of_nat (S i)), g)) groups.

Fixpoint sassoc (k : string) (d : list (string * string)) : option string :=
  match d with
  | [] => None
  | (k', v) :: r => if String.eqb k k' then Some v else sassoc k r
  end.

(** The expansion of a replacement template, as [re.sub] makes it for a
    match: each [\g<name>] becomes the text of the group; [None] when
    the template has another escape, an unfinished reference or a
    reference to a group that the match does not have. *)
Fixpoint expand_go (env : list (string * string)) (st : tstate) (t : string)
  : option string :=
  match t with
  | EmptyString => match st with TText => Some "" | _ => None end
  | String c r =>
      match st with
      | TText =>
          if Ascii.eqb c "\" then expand_go env TEsc r
          else String c <$> expand_go env TText r
      | TEsc => if Ascii.eqb c "g" then expand_go env TG r else None
      | TG => if Ascii.eqb c "<" then expand_go env (TName "") r else None
      | TName acc =>
          if Ascii.eqb c ">" then
            g ← sassoc acc env; String.append g <$> expand_go env TText r
          else expand_go env (TName (acc +:+ String c "")) r
      end
  end.

Definition expand (template : string) (groups : list string)
  : option string :=
  expand_go (group_env groups) TText template.

(** The text of a piece of HTML: what is outside its tags. [in_tag]
    tells that a tag is open. *)
Fixpoint strip_go (in_tag : bool) (s : string) : string :=
  match s with
  | EmptyString => EmptyString
  | String c r =>
      if in_tag then strip_go (negb (Ascii.eqb c ">")) r
      else if Ascii.eqb c "<" then strip_go true r
      else String c (strip_go false r)
  end.

Definition strip_tags (html : string) : string := strip_go false html.

(** Is a tag open at the end of [s]? *)
Fixpoint tag_state (in_tag : bool) (s : string) : bool :=
  match s with
  | EmptyString => in_tag
  | String c r =>
      if in_tag then tag_state (negb (Ascii.eqb c ">")) r
      else tag_state (Ascii.eqb c "<") r
  end.

(** A match of a sequence of literal characters and groups, with the
    text that each group captures. *)
Inductive captures : list regex -> string -> list string -> Prop :=
| Cap_nil : captures [] "" []
| Cap_lit c rs s gs :
    captures rs s gs -> captures (Lit c :: rs) (String c s) gs
| Cap_group r rs w s gs :
    matches (Group r) w -> captures rs s gs ->
    captures (Group r :: rs) (w +:+ s) (w :: gs).

(** The items of the pattern of [x]. *)
Definition items_of (x : citation) : list regex :=
  match x with
  | FullCitation c =>
      full_items (default 0%Z (volume c)) (default "" (reporter_found c))
        (default "" (page c))
  | ShortformCitation c ag =>
      shortform_items ag (default 0%Z (volume c))
        (default "" (reporter_found c)) (default "" (page c))
  | SupraCitation c ag => supra_items c ag
  | IdCitation _ idt after _ => id_items (default "" idt) (default [] after)
  end.

(** A string without [<], [>] and backslash. *)
Definition plain_str (s : string) : bool :=
  negb (str_has "<" s) && negb (str_has ">" s) && negb (str_has "\" s).

(** The attributes copied into the markup are such strings. *)
Definition safe (x : citation) : Prop :=
  Forall (fun s => plain_str s = true)
    (py_str (of_opt_str (match_url (base x))) :: text_fields x).

(** The reporter of a full or short form citation is written as it was
    found. *)
Definition reporter_as_found (x : citation) : Prop :=
  match x with
  | FullCitation c | ShortformCitation c _ => reporter c = reporter_found c
  | _ => True
  end.

(** *** Tokens and what is between them *)

(** The separators [ws] and the tokens [toks] in turn, a separator
    first and the last separator at the end. *)
Fixpoint weave_all (ws toks : list string) : string :=
  match toks, ws with
  | t :: toks', w :: ws' => w +:+ t +:+ weave_all ws' toks'
  | [], [w] => w
  | _, _ => ""
  end.

(** *** Items of a pattern, and matched texts *)

(** A literal character or a group. *)
Inductive item : regex -> Prop :=
| item_lit c : item (Lit c)
| item_group r : item (Group r).

(** The reporter that [as_html] writes is not the reporter that
    [as_regex] looks for. *)
Definition reporter_differs (x : citation) : Prop :=
  match x with
  | FullCitation c | ShortformCitation c _ =>
      py_str (of_opt_str (reporter c))
      <> py_str (of_opt_str (reporter_found c))
  | _ => False
  end.

(** [reporter_found] has no [<]. *)
Definition found_clean (x : citation) : Prop :=
  str_has "<" (py_str (of_opt_str (reporter_found (base x)))) = false.

(** "Id., at 240" and "22 Cr. 1" as they are matched. *)
Definition id_at_240_text : string := "Id., at 240".
Definition id_at_240_groups : list string := [""; ", "; " "; ""].
Definition cranch_text : string := "22 Cr. 1".
Definition cranch_groups : list string := [" "; " "; ""].

(** * Properties *)

(** ** Strings *)

Lemma sapp_nil_r (s : string) : s +:+ "" = s.
Proof. induction s as [|c s IH]; simpl; [done|by rewrite IH]. Qed.

Lemma sapp_assoc (s1 s2 s3 : string) :
  (s1 +:+ s2) +:+ s3 = s1 +:+ (s2 +:+ s3).
Proof. induction s1 as [|c s1 IH]; simpl; [done|by rewrite IH]. Qed.

(** ** [base_citation] *)

Lemma base_citation_some x v :
  volume (base x) = Some v ->
  base_citation x =
    Ok (pretty v +:+ " " +:+ py_str (of_opt_str (reporter (base x))) +:+ " "
        +:+ py_str (of_opt_str (page (base x)))).
Proof.
  intros Hv. unfold base_citation. rewrite Hv. cbn.
  by rewrite sapp_nil_r.
Qed.

(** C3: [base_citation] of a full citation is its volume, reporter and
    page separated by single spaces; with volume 515, reporter "U.S."
    and page "200" it is "515 U.S. 200", whatever the other attributes. *)
Theorem base_citation_full :
  (forall c v r p,
      volume c = Some v -> reporter c = Some r -> page c = Some p ->
      base_citation (FullCitation c) = Ok (pretty v +:+ " " +:+ r +:+ " " +:+ p))
  /\
  (forall c,
      volume c = Some 515%Z -> reporter c = Some "U.S." -> page c = Some "200" ->
      base_citation (FullCitation c) = Ok "515 U.S. 200").
Proof.
  assert (forall c v r p,
      volume c = Some v -> reporter c = Some r -> page c = Some p ->
      base_citation (FullCitation c) = Ok (pretty v +:+ " " +:+ r +:+ " " +:+ p))
    as H.
  { intros c v r p Hv Hr Hp.
    rewrite (base_citation_some _ v) by done. cbn. by rewrite Hr, Hp. }
  split; [exact H|].
  intros c Hv Hr Hp. by rewrite (H c _ _ _ Hv Hr Hp).
Qed.

(** The Adarand citation of the specification. *)
Lemma base_citation_full_witness :
  base_citation adarand = Ok "515 U.S. 200".
Proof. apply (proj2 base_citation_full); reflexivity. Defined.

(** C10: [base_citation] raises for every object without a volume, as
    every [IdCitation] is when built and every [SupraCitation] built
    without a volume: [%d] needs a number, and no variant has a
    [base_citation] of its own. *)
Theorem base_citation_partial :
  (forall x, volume (base x) = None -> base_citation x = Raise TypeError)
  /\
  (forall idt after lnk,
      base_citation (IdCitation_init idt after lnk) = Raise TypeError)
  /\
  (forall ag pg kw,
      base_citation (SupraCitation_init ag pg None kw) = Raise TypeError).
Proof.
  assert (forall x, volume (base x) = None -> base_citation x = Raise TypeError)
    as H.
  { intros x Hv. unfold base_citation. by rewrite Hv. }
  split; [exact H|]. split; intros; by apply H.
Qed.

(** An id citation has no base citation. *)
Lemma base_citation_partial_witness :
  base_citation (IdCitation_init (Some "Id.") (Some ["at"; "240"]) false)
  = Raise TypeError.
Proof. apply (proj1 base_citation_partial). reflexivity. Defined.

(** ** [to_model] *)

(** C4: when [canonical_reporter] is not a key of the reporter taxonomy
    (it is [None], or a string the taxonomy does not have), [to_model]
    raises [KeyError] and returns no model object. *)
Theorem to_model_unknown_reporter
    (entry_value : Type)
    (REPORTERS : gmap string (list (gmap string entry_value)))
    (get_all_field_names : list string) (cite_type_enum : Type)
    (map_reporter_db_cite_type : entry_value -> result cite_type_enum)
    (x : citation) :
  (forall k, canonical_reporter (base x) = Some k -> REPORTERS !! k = None) ->
  to_model entry_value REPORTERS get_all_field_names cite_type_enum
    map_reporter_db_cite_type x = Raise KeyError.
Proof.
  intros Hk. unfold to_model.
  destruct (canonical_reporter (base x)) as [k|]; cbn; [|done].
  by rewrite (Hk k eq_refl).
Qed.

(** "Cranch" is not in the sample taxonomy. *)
Lemma to_model_unknown_reporter_witness :
  to_model string sample_reporters ["reporter"; "volume"; "page"] string Ok
    cranch = Raise KeyError.
Proof.
  apply to_model_unknown_reporter.
  intros k Hk. injection Hk as <-. vm_compute. reflexivity.
Defined.

(** With a known reporter the conversion goes through. *)
Example to_model_known :
  to_model string sample_reporters ["reporter"; "volume"; "page"] string Ok
    adarand
  = Ok {| mc_kwargs := [("reporter", PStr "U.S."); ("volume", PInt 515);
                        ("page", PStr "200")];
          mc_type := Some "federal" |}.
Proof. vm_compute. reflexivity. Qed.

(** ** [fuzzy_hash] and [fuzzy_eq] *)

(** [fuzzy_eq] compares the hashes of the concatenated attributes. *)
Lemma fuzzy_hash_key hash x : fuzzy_hash hash x = hash (fuzzy_key x).
Proof.
  unfold fuzzy_hash, fuzzy_key. f_equal.
  destruct x; cbn [fold_left equality_attributes]; unfold getattr; cbn;
    by rewrite !sapp_assoc.
Qed.

(** C2 as stated fails: these two citations differ in volume and page,
    yet the five attributes concatenate to the same string,
    "F.123NoneNone", so that [fuzzy_eq] holds whatever [hash] is. *)
Lemma fuzzy_eq_collision :
  (forall hash, fuzzy_eq hash cite_1_23 cite_12_3 = true) /\
  volume (base cite_1_23) <> volume (base cite_12_3) /\
  ~ same_identity cite_1_23 cite_12_3.
Proof.
  split; [|split].
  - intros hash. unfold fuzzy_eq. rewrite !fuzzy_hash_key.
    apply Z.eqb_eq. reflexivity.
  - discriminate.
  - intros (_ & H & _). discriminate H.
Qed.

(** C2, amended: two citations that agree on reporter, volume, page,
    canonical_reporter and lookup_index are equal for [fuzzy_eq],
    whatever their year, court, match_url or other attributes. *)
Theorem fuzzy_eq_same_identity (hash : string -> Z) (x y : citation) :
  same_identity x y -> fuzzy_eq hash x y = true.
Proof.
  unfold fuzzy_eq. rewrite !fuzzy_hash_key.
  intros (Hr & Hv & Hp & Hc & Hl). apply Z.eqb_eq.
  unfold fuzzy_key. by rewrite Hr, Hv, Hp, Hc, Hl.
Qed.

(** Two mentions of Adarand, hashed by the length of the string. *)
Lemma fuzzy_eq_same_identity_witness :
  fuzzy_eq (fun s => Z.of_nat (String.length s)) adarand adarand_1996 = true.
Proof.
  apply (fuzzy_eq_same_identity _ adarand adarand_1996).
  repeat split; reflexivity.
Defined.

(** ** Characters of strings *)

Lemma str_all_app P s1 s2 :
  str_all P (s1 +:+ s2) = str_all P s1 && str_all P s2.
Proof.
  induction s1 as [|c s1 IH]; simpl; [done|]. by rewrite IH, andb_assoc.
Qed.

Lemma str_all_impl (P Q : ascii -> bool) s :
  (forall c, P c = true -> Q c = true) ->
  str_all P s = true -> str_all Q s = true.
Proof.
  intros HPQ. induction s as [|c s IH]; simpl; [done|].
  intros [Hc Hs]%andb_true_iff. by rewrite (HPQ _ Hc), IH.
Qed.

Lemma pretty_N_char_digit n : is_digit (pretty_N_char n) = true.
Proof. unfold pretty_N_char. by repeat case_match. Qed.

Lemma pretty_N_go_digits x s :
  str_all is_digit s = true -> str_all is_digit (pretty_N_go x s) = true.
Proof.
  revert s. induction (N.lt_wf_0 x) as [x _ IH]; intros s Hs.
  assert (x = 0 \/ 0 < x)%N as [->|Hx] by lia.
  - by rewrite pretty_N_go_0.
  - rewrite pretty_N_go_step by done. apply IH.
    + by apply N.div_lt.
    + simpl. by rewrite pretty_N_char_digit.
Qed.

Lemma pretty_N_digits (x : N) : str_all is_digit (pretty x) = true.
Proof.
  unfold pretty, pretty_N. case_decide; [done|].
  by apply pretty_N_go_digits.
Qed.

Lemma pretty_Z_numeral (z : Z) : str_all is_numeral_char (pretty z) = true.
Proof.
  assert (forall x : N, str_all is_numeral_char (pretty x) = true) as HN.
  { intros x. apply (str_all_impl is_digit); [|apply pretty_N_digits].
    intros c Hc. unfold is_numeral_char. by rewrite Hc. }
  destruct z as [|p|p]; [done|apply (HN (Npos p))|].
  change (pretty (Z.neg p)) with ("-" +:+ pretty (Npos p)).
  rewrite str_all_app, HN. done.
Qed.

Lemma numeral_char_cases c :
  is_numeral_char c = true -> is_alnum c = true \/ c = "-"%char.
Proof.
  unfold is_numeral_char, is_alnum.
  intros [H|H]%orb_true_iff.
  - left. rewrite H. by rewrite orb_true_r.
  - right. symmetry. by apply Ascii.eqb_eq.
Qed.

(** ** Lexing the generated patterns *)

Lemma lex_alnum c r : is_alnum c = true -> lex (String c r) = TLit c :: lex r.
Proof. intros H. cbn [lex]. by rewrite H. Qed.

Lemma lex_escaped c r :
  is_alnum c = false -> lex (String "\" (String c r)) = TLit c :: lex r.
Proof.
  intros H. cbn [lex].
  replace (is_alnum "\") with false by reflexivity.
  replace (Ascii.eqb "\" "\") with true by reflexivity.
  by rewrite H.
Qed.

Lemma special_not_alnum c : is_special c = true -> is_alnum c = false.
Proof.
  destruct c as [[] [] [] [] [] [] [] []]; try discriminate; reflexivity.
Qed.

Lemma lex_plain c r : is_special c = false -> lex (String c r) = TLit c :: lex r.
Proof.
  destruct c as [[] [] [] [] [] [] [] []]; try discriminate; reflexivity.
Qed.

Lemma lex_escape s rest : lex (escape s +:+ rest) = lits s ++ lex rest.
Proof.
  induction s as [|c s IH]; [done|].
  cbn [escape]. rewrite sapp_assoc. unfold escape_char.
  unfold lits. cbn [chars]. rewrite fmap_cons. fold (lits s).
  rewrite <-app_comm_cons. rewrite <-IH.
  destruct (is_special c) eqn:Hc.
  - simpl String.append. by apply lex_escaped, special_not_alnum.
  - simpl String.append. by apply lex_plain.
Qed.

Lemma lex_numeral s rest :
  str_all is_numeral_char s = true -> lex (s +:+ rest) = lits s ++ lex rest.
Proof.
  induction s as [|c s IH]; [done|].
  simpl str_all. intros [Hc Hs]%andb_true_iff.
  unfold lits. cbn [chars]. rewrite fmap_cons. fold (lits s).
  rewrite <-app_comm_cons. rewrite <-IH by done.
  simpl String.append.
  destruct (numeral_char_cases c Hc) as [Ha| ->]; [by apply lex_alnum|done].
Qed.

Lemma count_open_app ts1 ts2 :
  count_open (ts1 ++ ts2) = count_open ts1 + count_open ts2.
Proof. unfold count_open. by rewrite filter_app, length_app. Qed.

Lemma count_open_lits s : count_open (lits s) = 0.
Proof.
  unfold lits. induction (chars s) as [|c l IH]; [done|].
  unfold count_open in *. rewrite fmap_cons, filter_cons_False; [done|].
  simpl. discriminate.
Qed.

(** ** The patterns generated by [as_regex] *)

Lemma traverse_escape toks :
  traverse (fun t => py_str <$> re_escape (PStr t)) toks = Ok (escape <$> toks).
Proof.
  induction toks as [|t toks IH]; [done|].
  cbn [traverse]. rewrite IH. reflexivity.
Qed.

Lemma FullCitation_as_regex_shape c v rf p :
  volume c = Some v -> reporter_found c = Some rf -> page c = Some p ->
  as_regex (FullCitation c) =
    Ok (pretty v +:+ "(\s+)" +:+ escape rf +:+ "(\s+)" +:+ escape p +:+ "(\s?)").
Proof.
  intros Hv Hr Hp. cbn [as_regex]. unfold FullCitation_as_regex.
  rewrite Hv, Hr, Hp. reflexivity.
Qed.

Lemma ShortformCitation_as_regex_shape c ag v rf p :
  volume c = Some v -> reporter_found c = Some rf -> page c = Some p ->
  as_regex (ShortformCitation c ag) =
    Ok (escape ag +:+ "(\s+)" +:+ pretty v +:+ "(\s+)" +:+ escape rf +:+
        "(,?)(\s+)at(\s+)" +:+ escape p +:+ "(\s?)").
Proof.
  intros Hv Hr Hp. cbn [as_regex]. unfold ShortformCitation_as_regex.
  rewrite Hv, Hr, Hp. reflexivity.
Qed.

Lemma SupraCitation_as_regex_shape c ag :
  as_regex (SupraCitation c ag) =
    Ok (escape ag +:+ "(\s+)" +:+ supra_volume_part c +:+ "supra" +:+
        supra_page_part c +:+ "(\s?)").
Proof.
  cbn [as_regex]. unfold SupraCitation_as_regex, supra_volume_part,
    supra_page_part.
  destruct (volume c) as [v|], (page c) as [p|]; cbn [of_opt_int of_opt_str truthy];
    try destruct (v =? 0)%Z; try destruct (String.eqb p ""); cbn;
    rewrite ?sapp_assoc; cbn; rewrite ?sapp_assoc; reflexivity.
Qed.

Lemma IdCitation_as_regex_shape c idt toks lnk :
  as_regex (IdCitation c (Some idt) (Some toks) lnk) =
    Ok (whitespace_regex +:+ escape idt +:+ whitespace_regex +:+
        join whitespace_regex (escape <$> toks) +:+ "(\s?)").
Proof.
  cbn [as_regex]. unfold IdCitation_as_regex. cbn [of_opt_str re_escape].
  cbn [mbind result_bind iter_tokens py_str]. rewrite traverse_escape.
  cbn [mbind result_bind]. by rewrite !sapp_assoc.
Qed.

(** C6: the pattern of a full citation is built from the volume, the
    escaped [reporter_found] and the escaped page; it does not depend on
    [reporter], so that full citations that differ only there have the
    same pattern. *)
Theorem full_regex_reporter_found :
  (forall c v rf p,
      volume c = Some v -> reporter_found c = Some rf -> page c = Some p ->
      as_regex (FullCitation c) =
        Ok (pretty v +:+ "(\s+)" +:+ escape rf +:+ "(\s+)" +:+ escape p
            +:+ "(\s?)"))
  /\
  (forall c1 c2,
      volume c1 = volume c2 -> reporter_found c1 = reporter_found c2 ->
      page c1 = page c2 ->
      as_regex (FullCitation c1) = as_regex (FullCitation c2))
  /\
  (forall c r,
      as_regex (FullCitation (with_reporter c r)) = as_regex (FullCitation c)).
Proof.
  split; [exact FullCitation_as_regex_shape|].
  assert (forall c1 c2,
      volume c1 = volume c2 -> reporter_found c1 = reporter_found c2 ->
      page c1 = page c2 ->
      as_regex (FullCitation c1) = as_regex (FullCitation c2)) as H.
  { intros c1 c2 Hv Hr Hp. cbn [as_regex]. unfold FullCitation_as_regex.
    by rewrite Hv, Hr, Hp. }
  split; [exact H|]. intros c r. by apply H.
Qed.

(** The pattern of Adarand has the text "U. S." that was found, and stays
    the same under another normalized reporter. *)
Lemma full_regex_reporter_found_witness :
  as_regex adarand = Ok "515(\s+)U\.\ S\.(\s+)200(\s?)" /\
  as_regex (FullCitation (with_reporter (base adarand) (Some "U. S. Reports")))
  = as_regex adarand.
Proof.
  split.
  - apply (proj1 full_regex_reporter_found (base adarand) 515%Z "U. S." "200");
      reflexivity.
  - apply (proj1 (proj2 full_regex_reporter_found)); reflexivity.
Defined.

(** ** Counting the groups of the id pattern *)

Lemma lex_whitespace_regex rest :
  lex (whitespace_regex +:+ rest) = lex whitespace_regex ++ lex rest.
Proof. reflexivity. Qed.

Lemma count_open_whitespace_regex : count_open (lex whitespace_regex) = 1.
Proof. reflexivity. Qed.

Lemma count_open_join toks rest :
  count_open (lex (join whitespace_regex (escape <$> toks) +:+ rest)) =
  pred (length toks) + count_open (lex rest).
Proof.
  induction toks as [|t toks IH]; [done|].
  destruct toks as [|t' toks].
  - cbn [fmap list_fmap join]. rewrite lex_escape, count_open_app,
      count_open_lits. done.
  - change (join whitespace_regex (escape <$> t :: t' :: toks))
      with (escape t +:+ whitespace_regex +:+
            join whitespace_regex (escape <$> t' :: toks)).
    rewrite !sapp_assoc, lex_escape, lex_whitespace_regex, !count_open_app,
      count_open_lits, count_open_whitespace_regex, IH.
    simpl. done.
Qed.

Lemma count_groups_id_pattern idt toks :
  count_groups (whitespace_regex +:+ escape idt +:+ whitespace_regex +:+
                join whitespace_regex (escape <$> toks) +:+ "(\s?)") =
  3 + pred (length toks).
Proof.
  unfold count_groups.
  rewrite lex_whitespace_regex, lex_escape, lex_whitespace_regex,
    !count_open_app, count_open_join, count_open_lits,
    count_open_whitespace_regex.
  change (count_open (lex "(\s?)")) with 1. lia.
Qed.

(** ** The markup generated by [as_html] *)

Ltac case_match_url c :=
  unfold open_tag, link, anchor;
  destruct (match_url c) as [u|]; cbn [of_opt_str truthy];
  [destruct (String.eqb u "")|]; cbn [negb].

Ltac norm_strings := repeat (progress (cbn; rewrite ?sapp_assoc)).

Lemma FullCitation_as_html_shape c v :
  volume c = Some v ->
  as_html (FullCitation c) =
    Ok (open_tag c +:+ link c (full_inner c v) +:+ "</span>").
Proof.
  intros Hv. cbn [as_html]. unfold FullCitation_as_html, Citation_dict.
  rewrite Hv. unfold full_inner, span, gref.
  case_match_url c; norm_strings; reflexivity.
Qed.

Lemma ShortformCitation_as_html_shape c ag v :
  volume c = Some v ->
  as_html (ShortformCitation c ag) =
    Ok (open_tag c +:+ span "antecedent_guess" ag +:+ gref 1 +:+
        link c (shortform_inner c v) +:+ "</span>").
Proof.
  intros Hv. cbn [as_html].
  unfold ShortformCitation_as_html, dict_of, Citation_dict.
  rewrite Hv. unfold shortform_inner, span, gref.
  case_match_url c; norm_strings; reflexivity.
Qed.

Lemma SupraCitation_as_html_shape c ag :
  as_html (SupraCitation c ag) =
    Ok (open_tag c +:+ link c (supra_inner c ag) +:+ "</span>").
Proof.
  cbn [as_html]. unfold SupraCitation_as_html, supra_inner, span, gref.
  destruct (volume c) as [v|]; cbn [of_opt_int truthy];
    [destruct (v =? 0)%Z|]; cbn [negb];
    (destruct (page c) as [p|]; cbn [of_opt_str truthy];
     [destruct (String.eqb p "")|]; cbn [negb]);
    case_match_url c; norm_strings; reflexivity.
Qed.

Lemma traverse_after_refs k toks :
  traverse
    (fun it : nat * string =>
       format "\g<%s>%s" [PStr (py_str (PInt (Z.of_nat it.1 + 2))); PStr it.2])
    (imap (fun i x => (k + i, x)) toks)
  = Ok (imap (fun i t => gref (Z.of_nat (k + i) + 2) +:+ t) toks).
Proof.
  revert k. induction toks as [|t toks IH]; intros k; [done|].
  cbn [imap traverse].
  assert (imap ((fun i x => (k + i, x)) ∘ S) toks
          = imap (fun i x => (S k + i, x)) toks) as ->.
  { apply imap_ext. intros i x _. unfold compose.
    by replace (k + S i)%nat with (S k + i)%nat by lia. }
  assert (imap ((fun i t0 => gref (Z.of_nat (k + i) + 2) +:+ t0) ∘ S) toks
          = imap (fun i t0 => gref (Z.of_nat (S k + i) + 2) +:+ t0) toks) as ->.
  { apply imap_ext. intros i x _. unfold compose.
    by replace (k + S i)%nat with (S k + i)%nat by lia. }
  rewrite IH. unfold gref. cbn. rewrite !sapp_assoc, sapp_nil_r. reflexivity.
Qed.

Lemma join_after_refs k toks :
  join "" (imap (fun i t => gref (Z.of_nat (k + i) + 2) +:+ t) toks)
  = after_refs k toks.
Proof.
  revert k. induction toks as [|t toks IH]; intros k; [done|].
  cbn [imap after_refs].
  assert (imap ((fun i t0 => gref (Z.of_nat (k + i) + 2) +:+ t0) ∘ S) toks
          = imap (fun i t0 => gref (Z.of_nat (S k + i) + 2) +:+ t0) toks) as Hi.
  { apply imap_ext. intros i x _. unfold compose.
    by replace (k + S i)%nat with (S k + i)%nat by lia. }
  rewrite Hi. rewrite <-IH. rewrite Nat.add_0_r.
  destruct toks as [|t' toks]; cbn [imap join]; rewrite ?sapp_assoc.
  - by rewrite sapp_nil_r.
  - reflexivity.
Qed.

Lemma generate_after_token_html_shape toks :
  IdCitation_generate_after_token_html (Some toks)
  = Ok (after_token_markup toks).
Proof.
  unfold IdCitation_generate_after_token_html, enumerate, after_token_markup.
  cbn [iter_tokens mbind result_bind].
  pose proof (traverse_after_refs 0 toks) as Ht.
  pose proof (join_after_refs 0 toks) as Hj.
  cbn [Nat.add] in Ht, Hj. rewrite Ht. cbn [mbind result_bind].
  rewrite Hj. reflexivity.
Qed.

Lemma IdCitation_as_html_shape c idt toks lnk :
  as_html (IdCitation c idt (Some toks) lnk) =
    Ok (open_tag c +:+ gref 1 +:+
        id_string c idt lnk (after_token_markup toks) +:+ "</span>").
Proof.
  cbn [as_html]. unfold IdCitation_as_html.
  rewrite generate_after_token_html_shape. cbn [mbind result_bind].
  generalize (after_token_markup toks) as after. intros after.
  unfold id_string, span, gref.
  case_match_url c; [| destruct lnk |]; norm_strings; reflexivity.
Qed.

(** ** Characters that a string does not have *)

Lemma str_has_app c s1 s2 :
  str_has c (s1 +:+ s2) = str_has c s1 || str_has c s2.
Proof.
  induction s1 as [|d s1 IH]; simpl; [done|]. by rewrite IH, orb_assoc.
Qed.

Lemma str_all_lacks P c s :
  P c = false -> str_all P s = true -> str_has c s = false.
Proof.
  intros HP. induction s as [|d s IH]; simpl; [done|].
  intros [Hd Hs]%andb_true_iff. rewrite (IH Hs), orb_false_r.
  destruct (Ascii.eqb_spec c d) as [->|]; [congruence|done].
Qed.

Lemma pretty_lacks (c : ascii) (z : Z) :
  is_numeral_char c = false -> str_has c (pretty z) = false.
Proof. intros Hc. eapply str_all_lacks, pretty_Z_numeral. done. Qed.

Lemma pretty_N_go_nonempty x s : s <> "" -> pretty_N_go x s <> "".
Proof.
  revert s. induction (N.lt_wf_0 x) as [x _ IH]; intros s Hs.
  assert (x = 0 \/ 0 < x)%N as [->|Hx] by lia.
  - by rewrite pretty_N_go_0.
  - rewrite pretty_N_go_step by done. apply IH; [by apply N.div_lt|done].
Qed.

Lemma pretty_N_nonempty (x : N) : pretty x <> "".
Proof.
  unfold pretty, pretty_N. case_decide; [done|].
  assert (0 < x)%N as Hx by lia.
  rewrite pretty_N_go_step by done. by apply pretty_N_go_nonempty.
Qed.

Lemma pretty_Z_nonempty (z : Z) : String.eqb (pretty z) "" = false.
Proof.
  apply String.eqb_neq. destruct z as [|p|p]; [done| |done].
  apply (pretty_N_nonempty (Npos p)).
Qed.

(** ** References of a template *)

Lemma backrefs_skip s rest :
  str_has "\" s = false ->
  backrefs_go TText (s +:+ rest) = backrefs_go TText rest.
Proof.
  induction s as [|c s IH]; [done|]. cbn [str_has].
  intros [Hc Hs]%orb_false_iff. simpl String.append. cbn [backrefs_go].
  rewrite Ascii.eqb_sym, Hc. by apply IH.
Qed.

Lemma backrefs_name acc s rest :
  str_has ">" s = false ->
  backrefs_go (TName acc) (s +:+ String ">" rest) =
    if String.eqb (acc +:+ s) "" then None
    else cons (acc +:+ s) <$> backrefs_go TText rest.
Proof.
  revert acc. induction s as [|c s IH]; intros acc.
  - intros _. simpl String.append. cbn [backrefs_go].
    replace (Ascii.eqb ">" ">") with true by reflexivity.
    by rewrite sapp_nil_r.
  - cbn [str_has]. intros [Hc Hs]%orb_false_iff.
    simpl String.append. cbn [backrefs_go]. rewrite Ascii.eqb_sym, Hc.
    rewrite IH by done. rewrite sapp_assoc. reflexivity.
Qed.

Lemma backrefs_gref z rest :
  backrefs_go TText (gref z +:+ rest) = cons (pretty z) <$> backrefs_go TText rest.
Proof.
  unfold gref. rewrite !sapp_assoc.
  change (backrefs_go TText ("\g<" +:+ pretty z +:+ ">" +:+ rest))
    with (backrefs_go (TName "") (pretty z +:+ String ">" rest)).
  rewrite backrefs_name by (by apply pretty_lacks).
  simpl String.append. by rewrite pretty_Z_nonempty.
Qed.

Lemma backrefs_after_refs k toks rest :
  Forall (fun s => str_has "\" s = false) toks ->
  backrefs_go TText (after_refs k toks +:+ rest) =
    app ((fun i => pretty (Z.of_nat i)) <$> seq (k + 2) (length toks))
      <$> backrefs_go TText rest.
Proof.
  intros Htoks. revert k.
  induction Htoks as [|t toks Ht _ IH]; intros k.
  - simpl. by destruct (backrefs_go TText rest).
  - cbn [after_refs]. rewrite !sapp_assoc, backrefs_gref, backrefs_skip by done.
    rewrite IH. cbn [length seq fmap list_fmap].
    replace (Z.of_nat k + 2)%Z with (Z.of_nat (k + 2)) by lia.
    by destruct (backrefs_go TText rest).
Qed.

(** ** Anchors in the markup *)






(** ** The container and the anchor of the markup *)



Local Arguments gref : simpl never.
Local Arguments pretty : simpl never.


Ltac split_forall :=
  repeat match goal with
         | H : Forall _ (_ :: _) |- _ => apply Forall_cons in H as [? H]
         end.




(** C9: in the markup of a short form citation with [match_url] set,
    the span of the antecedent guess and the first group come before the
    anchor, and the anchor holds the volume, reporter and page, after
    which only the container is closed. *)
Theorem shortform_antecedent_outside_anchor c ag v u :
  volume c = Some v -> match_url c = Some u -> u <> "" ->
  as_html (ShortformCitation c ag) =
    Ok (q "<span class='citation' data-id='" +:+
        py_str (of_opt_int (match_id c)) +:+ q "'>" +:+
        span "antecedent_guess" ag +:+ "\g<1>" +:+
        q "<a href='" +:+ u +:+ q "'>" +:+ shortform_inner c v +:+ "</a>" +:+
        "</span>").
Proof.
  intros Hv Hu Hne. rewrite (ShortformCitation_as_html_shape c ag v Hv).
  unfold open_tag, link, anchor. rewrite Hu. cbn [of_opt_str truthy py_str].
  apply String.eqb_neq in Hne. rewrite Hne. cbn [negb].
  by rewrite !sapp_assoc.
Qed.

(** The markup of the matched short form citation. *)
Lemma shortform_antecedent_outside_anchor_witness :
  as_html adarand_short =
    Ok (q ("<span class='citation' data-id='117960'>" +:+
           "<span class='antecedent_guess'>Adarand,</span>\g<1>" +:+
           "<a href='/opinion/117960/'>" +:+
           "<span class='volume'>515</span>\g<2>" +:+
           "<span class='reporter'>U.S.</span>\g<3>\g<4>at\g<5>" +:+
           "<span class='page'>241</span>\g<6>" +:+
           "</a></span>")).
Proof.
  apply (shortform_antecedent_outside_anchor
           (with_match adarand_241 "/opinion/117960/" 117960) "Adarand,"
           515%Z "/opinion/117960/");
    [reflexivity|reflexivity|discriminate].
Defined.

Local Arguments gref : simpl never.
Local Arguments pretty : simpl never.

(** ** The leading group of the id markup *)

(** C8 as stated fails: the markup of "Id., at 240" begins with the
    opening tag of the span, and the reference to the first group comes
    after it. *)
Lemma id_leading_group_inside :
  as_html id_at_240 = Ok id_at_240_html /\
  starts_with "\g<1>" id_at_240_html = false /\
  starts_with (q "<span class='citation no-link'>\g<1>") id_at_240_html = true.
Proof. repeat split. Qed.

(** C8, amended: the markup of an id citation begins with the opening
    tag of the "citation" span, and the reference to the first group
    comes right after that tag, inside the span, before the id token. *)
Theorem id_leading_group_after_open_tag c idt toks lnk :
  exists html,
    as_html (IdCitation c idt (Some toks) lnk) = Ok html /\
    html = open_tag c +:+ "\g<1>" +:+
           id_string c idt lnk (after_token_markup toks) +:+ "</span>" /\
    starts_with (q "<span class='citation") html = true /\
    starts_with "\g<1>" html = false.
Proof.
  eexists. split; [apply IdCitation_as_html_shape|].
  split; [reflexivity|].
  unfold open_tag. destruct (truthy (of_opt_str (match_url c))); done.
Qed.

(** ** Groups of the id pattern and references of the id markup *)

(** C1 at an id citation with no token after it (N = 0): the pattern
    has three groups, not two, and the markup refers to the first two
    only, so that the third group is referred to nowhere. *)
Theorem id_bare_groups :
  as_regex id_bare = Ok "((?:\s|</?\w+>|,)*)Id\.((?:\s|</?\w+>|,)*)(\s?)" /\
  count_groups "((?:\s|</?\w+>|,)*)Id\.((?:\s|</?\w+>|,)*)(\s?)" = 3 /\
  as_html id_bare =
    Ok (q ("<span class='citation no-link'>\g<1>" +:+
           "<span class='id_token'>Id.</span>\g<2></span>")) /\
  backrefs (q ("<span class='citation no-link'>\g<1>" +:+
               "<span class='id_token'>Id.</span>\g<2></span>"))
  = Some ["1"; "2"].
Proof. repeat split. Qed.

Lemma group_names_split n :
  group_names (n + 2) =
    pretty 1%Z ::
    ((fun i => pretty (Z.of_nat i)) <$> seq 2 n) ++ [pretty (Z.of_nat n + 2)%Z].
Proof.
  unfold group_names. replace (n + 2) with (S (S n)) by lia.
  change (seq 1 (S (S n))) with (1 :: seq 2 (S n)).
  rewrite seq_S, fmap_cons, fmap_app. cbn [fmap list_fmap].
  replace (Z.of_nat (2 + n)) with (Z.of_nat n + 2)%Z by lia. reflexivity.
Qed.

Lemma py_str_int_lacks_backslash (o : option Z) :
  str_has "\" (py_str (of_opt_int o)) = false.
Proof. destruct o; [by apply pretty_lacks|done]. Qed.

Ltac scan_refs :=
  repeat first
    [ rewrite backrefs_gref
    | rewrite backrefs_after_refs by assumption
    | rewrite backrefs_skip by assumption
    | rewrite backrefs_skip by apply py_str_int_lacks_backslash
    | progress cbn ].

Lemma id_markup_refs c idt toks lnk :
  tidy (IdCitation c idt (Some toks) lnk) ->
  backrefs (open_tag c +:+ "\g<1>" +:+
            id_string c idt lnk (after_token_markup toks) +:+ "</span>")
  = Some (group_names (length toks + 2)).
Proof.
  unfold tidy. cbn [base text_fields]. intros Ht. split_forall.
  change (default [] (Some toks)) with toks in Ht.
  rewrite group_names_split. unfold backrefs.
  change "\g<1>" with (gref 1).
  unfold open_tag, id_string, anchor, after_token_markup, span.
  destruct (truthy (of_opt_str (match_url c))); [destruct lnk|];
    rewrite !sapp_assoc; scan_refs; reflexivity.
Qed.

(** For at least one token after the id token, the pattern has one
    group before the id token, one after it and one after each token
    but the last, then the final one: as many as tokens, plus two; and
    the markup refers to each of them once, in order. *)
Lemma id_groups_and_refs c idt toks lnk :
  toks <> [] ->
  tidy (IdCitation c (Some idt) (Some toks) lnk) ->
  exists pattern html,
    as_regex (IdCitation c (Some idt) (Some toks) lnk) = Ok pattern /\
    count_groups pattern = length toks + 2 /\
    as_html (IdCitation c (Some idt) (Some toks) lnk) = Ok html /\
    backrefs html = Some (group_names (length toks + 2)).
Proof.
  intros Hne Ht. eexists _, _.
  split; [apply IdCitation_as_regex_shape|].
  split.
  { rewrite count_groups_id_pattern. destruct toks; [done|simpl; lia]. }
  split; [apply IdCitation_as_html_shape|].
  change (gref 1) with "\g<1>". by apply id_markup_refs.
Qed.

(** With no token after the id token, whatever the object: three
    groups, and references to the first two. *)
Lemma id_no_tokens_groups_and_refs c idt lnk :
  tidy (IdCitation c (Some idt) (Some []) lnk) ->
  exists pattern html,
    as_regex (IdCitation c (Some idt) (Some []) lnk) = Ok pattern /\
    count_groups pattern = 3 /\
    as_html (IdCitation c (Some idt) (Some []) lnk) = Ok html /\
    backrefs html = Some (group_names 2).
Proof.
  intros Ht. eexists _, _.
  split; [apply IdCitation_as_regex_shape|].
  split; [by rewrite count_groups_id_pattern|].
  split; [apply IdCitation_as_html_shape|].
  change (gref 1) with "\g<1>". by apply (id_markup_refs c (Some idt) []).
Qed.

(** "Id., at 240": four groups, four references. *)
Lemma id_groups_and_refs_example :
  exists pattern html,
    as_regex id_at_240 = Ok pattern /\ count_groups pattern = 4 /\
    as_html id_at_240 = Ok html /\ backrefs html = Some ["1"; "2"; "3"; "4"].
Proof.
  apply (id_groups_and_refs _ "Id." ["at"; "240"] false); [done|].
  repeat constructor.
Defined.

(** ** Correctness of the matcher *)

Lemma sapp_eq_nil (s1 s2 : string) : s1 +:+ s2 = "" -> s1 = "" /\ s2 = "".
Proof. destruct s1; [done|discriminate]. Qed.

Lemma sapp_eq_cons (s1 s2 : string) c s :
  s1 +:+ s2 = String c s ->
  (s1 = "" /\ s2 = String c s) \/
  (exists s1', s1 = String c s1' /\ s = s1' +:+ s2).
Proof.
  destruct s1 as [|d s1]; simpl; [by left|].
  intros [= -> <-]. right. eauto.
Qed.

#[local] Hint Constructors dmatches matches : core.

Lemma matches_dre r s : matches r s -> dmatches (dre_of r) s.
Proof.
  induction 1; cbn [dre_of]; eauto.
Qed.

Lemma dmatches_star_dre r s :
  (forall s', dmatches (dre_of r) s' -> matches r s') ->
  dmatches (DStar (dre_of r)) s -> matches (Star r) s.
Proof.
  intros IH H. remember (DStar (dre_of r)) as d eqn:Hd.
  induction H; try discriminate; injection Hd as ->; eauto.
Qed.

Lemma dre_matches r s : dmatches (dre_of r) s -> matches r s.
Proof.
  revert s. induction r as [| c | | |r1 IH1 r2 IH2|r1 IH1 r2 IH2|r IH|r IH|r IH|r IH];
    intros s H; cbn [dre_of] in H.
  - inversion H; subst; eauto.
  - inversion H; subst; eauto.
  - inversion H; subst; eauto.
  - inversion H; subst; eauto.
  - inversion H; subst; eauto.
  - inversion H; subst; eauto.
  - by apply dmatches_star_dre.
  - inversion H; subst. apply MPlus; [eauto|]. by apply dmatches_star_dre.
  - inversion H as [| | | | |? ? ? H1|? ? ? H1| |]; subst; [eauto|].
    inversion H1; subst. eauto.
  - eauto.
Qed.

Lemma dmatches_cat_inv r1 r2 s :
  dmatches (DCat r1 r2) s ->
  exists s1 s2, s = s1 +:+ s2 /\ dmatches r1 s1 /\ dmatches r2 s2.
Proof. inversion 1; subst; eauto 6. Qed.

Lemma nullable_spec r : nullable r = true <-> dmatches r "".
Proof.
  induction r as [| |c| | |r1 IH1 r2 IH2|r1 IH1 r2 IH2|r IH]; cbn [nullable].
  - split; [done|]. inversion 1.
  - split; eauto.
  - split; [done|]. inversion 1.
  - split; [done|]. inversion 1.
  - split; [done|]. inversion 1.
  - rewrite andb_true_iff, IH1, IH2. split.
    + intros [H1 H2]. change "" with ("" +:+ ""). eauto.
    + intros (s1 & s2 & Heq & H1 & H2)%dmatches_cat_inv. symmetry in Heq.
      apply sapp_eq_nil in Heq as [-> ->]. done.
  - rewrite orb_true_iff, IH1, IH2. split.
    + intros [H|H]; eauto.
    + inversion 1; subst; eauto.
  - split; eauto.
Qed.

Lemma dmatches_star_cons r c s :
  dmatches (DStar r) (String c s) ->
  exists s1 s2,
    s = s1 +:+ s2 /\ dmatches r (String c s1) /\ dmatches (DStar r) s2.
Proof.
  intros H. remember (DStar r) as d eqn:Hd. remember (String c s) as t eqn:Ht.
  revert s Ht.
  induction H as [| | | | | | | |r' s1 s2 H1 _ H2 IH2]; try discriminate.
  injection Hd as ->. intros s Ht.
  apply sapp_eq_cons in Ht as [[-> ->]|(s1' & -> & ->)].
  - by apply IH2.
  - eauto.
Qed.

Lemma deriv_spec c r s : dmatches (deriv c r) s <-> dmatches r (String c s).
Proof.
  revert s.
  induction r as [| |d| | |r1 IH1 r2 IH2|r1 IH1 r2 IH2|r IH]; intros s;
    cbn [deriv].
  - split; inversion 1.
  - split; inversion 1.
  - destruct (Ascii.eqb_spec c d) as [->|Hne]; split; inversion 1; subst; eauto.
    done.
  - destruct (is_space c) eqn:Hc; split; inversion 1; subst; eauto.
    congruence.
  - destruct (is_word c) eqn:Hc; split; inversion 1; subst; eauto.
    congruence.
  - split.
    + intros H.
      assert (dmatches (DCat (deriv c r1) r2) s \/
              (nullable r1 = true /\ dmatches (deriv c r2) s)) as [H'|[Hn H']].
      { destruct (nullable r1); [|by left].
        inversion H; subst; [by left|by right]. }
      * apply dmatches_cat_inv in H' as (s1 & s2 & -> & H1 & H2).
        change (String c (s1 +:+ s2)) with (String c s1 +:+ s2).
        apply DMCat; [by apply IH1|done].
      * change (String c s) with ("" +:+ String c s).
        apply DMCat; [by apply nullable_spec|by apply IH2].
    + intros (s1 & s2 & Heq & H1 & H2)%dmatches_cat_inv. symmetry in Heq.
      apply sapp_eq_cons in Heq as [[-> ->]|(s1' & -> & ->)].
      * apply nullable_spec in H1. rewrite H1. apply DMAltR. by apply IH2.
      * assert (dmatches (DCat (deriv c r1) r2) (s1' +:+ s2)) as H'.
        { apply DMCat; [by apply IH1|done]. }
        destruct (nullable r1); eauto.
  - split.
    + inversion 1; subst; [apply DMAltL; by apply IH1|apply DMAltR; by apply IH2].
    + inversion 1; subst; [apply DMAltL; by apply IH1|apply DMAltR; by apply IH2].
  - split.
    + intros (s1 & s2 & -> & H1 & H2)%dmatches_cat_inv.
      change (String c (s1 +:+ s2)) with (String c s1 +:+ s2).
      apply DMStarS; [by apply IH|done].
    + intros (s1 & s2 & -> & H1 & H2)%dmatches_star_cons.
      apply DMCat; [by apply IH|done].
Qed.

Lemma dmatch_spec r s : dmatch r s = true <-> dmatches r s.
Proof.
  revert r. induction s as [|c s IH]; intros r; cbn [dmatch].
  - apply nullable_spec.
  - by rewrite IH, deriv_spec.
Qed.

Lemma dprefix_spec r s :
  dprefix r s = true <-> exists m b, s = m +:+ b /\ dmatches r m.
Proof.
  revert r. induction s as [|c s IH]; intros r; cbn [dprefix].
  - rewrite orb_false_r, nullable_spec. split.
    + intros H. by exists "", "".
    + intros (m & b & Heq & H). symmetry in Heq.
      by apply sapp_eq_nil in Heq as [-> _].
  - rewrite orb_true_iff, nullable_spec, IH. split.
    + intros [H|(m & b & -> & H)].
      * by exists "", (String c s).
      * exists (String c m), b. split; [done|]. by apply deriv_spec.
    + intros (m & b & Heq & H). symmetry in Heq.
      apply sapp_eq_cons in Heq as [[-> _]|(m' & -> & ->)]; [by left|].
      right. exists m', b. split; [done|]. by apply deriv_spec.
Qed.

Lemma dsearch_spec r s :
  dsearch r s = true <-> exists a m b, s = a +:+ m +:+ b /\ dmatches r m.
Proof.
  induction s as [|c s IH]; cbn [dsearch].
  - rewrite orb_false_r, dprefix_spec. split.
    + intros (m & b & Heq & H). by exists "", m, b.
    + intros (a & m & b & Heq & H). symmetry in Heq.
      apply sapp_eq_nil in Heq as [-> Heq]. eauto.
  - rewrite orb_true_iff, dprefix_spec, IH. split.
    + intros [(m & b & Heq & H)|(a & m & b & -> & H)].
      * by exists "", m, b.
      * by exists (String c a), m, b.
    + intros (a & m & b & Heq & H). symmetry in Heq.
      apply sapp_eq_cons in Heq as [[-> Heq]|(a' & -> & ->)]; [left|right]; eauto.
Qed.

Lemma matchb_spec r s : matchb r s = true <-> matches r s.
Proof.
  unfold matchb. rewrite dmatch_spec. split; [apply dre_matches|apply matches_dre].
Qed.

Lemma searchb_spec r s : searchb r s = true <-> occurs r s.
Proof.
  unfold searchb, occurs. rewrite dsearch_spec.
  split; intros (a & m & b & Heq & H); exists a, m, b;
    (split; [done|]); [by apply dre_matches|by apply matches_dre].
Qed.

#[local] Hint Constructors matches : core.

(** ** The structure of the generated patterns *)

Lemma push_items_app L1 L2 f :
  push_items (L1 ++ L2) f = push_items L2 (push_items L1 f).
Proof. unfold push_items. by rewrite fold_left_app. Qed.

Lemma parses_app p1 p2 L1 L2 :
  parses_to p1 L1 -> parses_to p2 L2 -> parses_to (p1 +:+ p2) (L1 ++ L2).
Proof.
  intros H1 H2 st cur rest. by rewrite sapp_assoc, H1, H2, push_items_app.
Qed.

Lemma parse_lits st cur s ts :
  parse_go st cur (lits s ++ ts) = parse_go st (push_items (lit_items s) cur) ts.
Proof.
  revert cur. unfold lits, lit_items.
  induction (chars s) as [|c l IH]; intros cur; [done|].
  rewrite !fmap_cons. cbn [app parse_go push_items fold_left]. apply IH.
Qed.

Lemma parses_escape s : parses_to (escape s) (lit_items s).
Proof. intros st cur rest. by rewrite lex_escape, parse_lits. Qed.

Lemma parses_numeral s :
  str_all is_numeral_char s = true -> parses_to s (lit_items s).
Proof. intros Hs st cur rest. by rewrite lex_numeral, parse_lits. Qed.

Lemma parses_nil : parses_to "" [].
Proof. done. Qed.

Lemma parses_ws_plus : parses_to "(\s+)" [ws_plus].
Proof. done. Qed.

Lemma parses_ws_opt : parses_to "(\s?)" [ws_opt].
Proof. done. Qed.

Lemma parses_comma_opt : parses_to "(,?)" [comma_opt].
Proof. done. Qed.

Lemma parses_whitespace_regex : parses_to whitespace_regex [id_wildcard].
Proof. done. Qed.

Lemma parses_at : parses_to "at" (lit_items "at").
Proof. done. Qed.

Lemma parses_supra : parses_to "supra" (lit_items "supra").
Proof. done. Qed.

Lemma parses_comma : parses_to "," (lit_items ",").
Proof. done. Qed.

Lemma push_items_frame L f :
  push_items L f =
    mkFrame (f_alts f) (rev L ++ f_items f)
      (match L with [] => f_rep f | _ => false end) (f_cap f).
Proof.
  revert f. induction L as [|r L IH]; intros f; [by destruct f|].
  cbn [push_items fold_left]. fold (push_items L (push_item r f)).
  rewrite IH. cbn [push_item f_alts f_items f_rep f_cap rev].
  rewrite <-app_assoc. by destruct L.
Qed.

Lemma compile_parses p L : parses_to p L -> compile p = Some (seq_re L).
Proof.
  intros H. unfold compile. rewrite <-(sapp_nil_r p), H.
  cbn [lex parse_go]. f_equal. rewrite push_items_frame.
  unfold close_frame, alt_of, seq_re. cbn. by rewrite app_nil_r.
Qed.

(** ** The strings a sequence matches *)

Lemma matches_cat_inv r1 r2 s :
  matches (Cat r1 r2) s ->
  exists s1 s2, s = s1 +:+ s2 /\ matches r1 s1 /\ matches r2 s2.
Proof. inversion 1; subst; eauto 6. Qed.

Lemma matches_seq_cons_inv r rs s :
  matches_seq (r :: rs) s ->
  exists s1 s2, s = s1 +:+ s2 /\ matches r s1 /\ matches_seq rs s2.
Proof. inversion 1; subst; eauto 6. Qed.

Lemma seq_of_snoc M r :
  seq_of (rev (M ++ [r])) = foldr Cat r M.
Proof.
  rewrite rev_app_distr. cbn [rev app seq_of].
  induction M as [|x M IH]; [done|].
  cbn [rev foldr]. rewrite fold_left_app. cbn [fold_left]. by rewrite IH.
Qed.

Lemma foldr_cat_spec M r s :
  matches (foldr Cat r M) s <-> matches_seq (M ++ [r]) s.
Proof.
  revert s. induction M as [|x M IH]; intros s; cbn [foldr app].
  - split.
    + intros H. rewrite <-(sapp_nil_r s). by repeat constructor.
    + intros (s1 & s2 & -> & H1 & H2)%matches_seq_cons_inv.
      inversion H2; subst. by rewrite sapp_nil_r.
  - split.
    + intros (s1 & s2 & -> & H1 & H2)%matches_cat_inv.
      constructor; [done|]. by apply IH.
    + intros (s1 & s2 & -> & H1 & H2)%matches_seq_cons_inv.
      constructor; [done|]. by apply IH.
Qed.

Lemma seq_re_spec L s : matches (seq_re L) s <-> matches_seq L s.
Proof.
  unfold seq_re. induction L as [|r M _] using rev_ind.
  - cbn. split; inversion 1; subst; constructor.
  - rewrite seq_of_snoc. apply foldr_cat_spec.
Qed.

Lemma matches_seq_lits t rest s :
  matches_seq (lit_items t ++ rest) s <->
  exists s', s = t +:+ s' /\ matches_seq rest s'.
Proof.
  revert s. unfold lit_items.
  induction t as [|c t IH]; intros s; cbn [chars].
  - cbn. split; [eauto|]. by intros (s' & -> & H).
  - rewrite fmap_cons. cbn [app]. split.
    + intros (s1 & s2 & -> & H1 & H2)%matches_seq_cons_inv.
      apply IH in H2 as (s' & -> & H2). inversion H1; subst. eauto.
    + intros (s' & -> & H).
      change (String c t +:+ s') with (String c "" +:+ (t +:+ s')).
      constructor; [constructor|]. apply IH. eauto.
Qed.

Lemma matches_seq_item r rest s :
  matches_seq ([r] ++ rest) s <->
  exists w s', s = w +:+ s' /\ matches r w /\ matches_seq rest s'.
Proof.
  cbn [app]. split.
  - apply matches_seq_cons_inv.
  - intros (w & s' & -> & H1 & H2). by constructor.
Qed.

#[local] Hint Constructors matches : core.

(** ** What the separators match *)

Lemma matches_group_inv r s : matches (Group r) s -> matches r s.
Proof. by inversion 1. Qed.

Lemma matches_plus_inv r s :
  matches (Plus r) s ->
  exists s1 s2, s = s1 +:+ s2 /\ matches r s1 /\ matches (Star r) s2.
Proof. inversion 1; subst; eauto 6. Qed.

Lemma matches_opt_inv r s : matches (Opt r) s -> s = "" \/ matches r s.
Proof. inversion 1; subst; eauto. Qed.

Lemma matches_alt_inv r1 r2 s :
  matches (Alt r1 r2) s -> matches r1 s \/ matches r2 s.
Proof. inversion 1; subst; eauto. Qed.

Lemma matches_lit_inv c s : matches (Lit c) s -> s = String c "".
Proof. by inversion 1. Qed.

Lemma matches_space_inv s :
  matches Space s -> exists c, s = String c "" /\ is_space c = true.
Proof. inversion 1; subst; eauto. Qed.

Lemma matches_word_inv s :
  matches Word s -> exists c, s = String c "" /\ is_word c = true.
Proof. inversion 1; subst; eauto. Qed.

Lemma matches_star_ind r (P : string -> Prop) :
  P "" ->
  (forall s1 s2, matches r s1 -> matches (Star r) s2 -> P s2 -> P (s1 +:+ s2)) ->
  forall s, matches (Star r) s -> P s.
Proof.
  intros H0 HS s H. remember (Star r) as r' eqn:Hr.
  induction H; try discriminate; injection Hr as ->; eauto.
Qed.

Lemma star_space_spec s :
  matches (Star Space) s <-> str_all is_space s = true.
Proof.
  split.
  - revert s. apply matches_star_ind; [done|].
    intros s1 s2 (c & -> & Hc)%matches_space_inv _ IH. simpl.
    by rewrite Hc, IH.
  - induction s as [|c s IH]; [eauto|]. simpl.
    intros [Hc Hs]%andb_true_iff.
    change (String c s) with (String c "" +:+ s). eauto.
Qed.

Lemma star_word_spec s :
  matches (Star Word) s <-> str_all is_word s = true.
Proof.
  split.
  - revert s. apply matches_star_ind; [done|].
    intros s1 s2 (c & -> & Hc)%matches_word_inv _ IH. simpl.
    by rewrite Hc, IH.
  - induction s as [|c s IH]; [eauto|]. simpl.
    intros [Hc Hs]%andb_true_iff.
    change (String c s) with (String c "" +:+ s). eauto.
Qed.

Lemma matches_ws_plus w :
  matches ws_plus w <-> w <> "" /\ str_all is_space w = true.
Proof.
  unfold ws_plus. split.
  - intros (s1 & s2 & -> & (c & -> & Hc)%matches_space_inv & H2)%matches_group_inv%matches_plus_inv.
    apply star_space_spec in H2. simpl. by rewrite Hc, H2.
  - intros [Hne Hw]. destruct w as [|c w]; [done|].
    simpl in Hw. apply andb_true_iff in Hw as [Hc Hw].
    change (String c w) with (String c "" +:+ w).
    constructor. constructor; [eauto|]. by apply star_space_spec.
Qed.

Lemma matches_ws_opt w :
  matches ws_opt w <->
  w = "" \/ exists c, w = String c "" /\ is_space c = true.
Proof.
  unfold ws_opt. split.
  - intros [->|H]%matches_group_inv%matches_opt_inv; [by left|].
    right. by apply matches_space_inv.
  - intros [->|(c & -> & Hc)]; eauto.
Qed.

Lemma matches_comma_opt w : matches comma_opt w <-> w = "" \/ w = ",".
Proof.
  unfold comma_opt. split.
  - intros [->|H]%matches_group_inv%matches_opt_inv; [by left|].
    right. by apply matches_lit_inv.
  - intros [->| ->]; eauto.
Qed.

Lemma matches_tag t : matches tag_re t <-> is_tag t.
Proof.
  unfold tag_re, is_tag. split.
  - intros (s1 & s2 & -> & ->%matches_lit_inv & H)%matches_cat_inv.
    apply matches_cat_inv in H as (sl & s3 & -> & Hsl & H).
    apply matches_cat_inv in H as (nm & s4 & -> & Hnm & ->%matches_lit_inv).
    apply matches_plus_inv in Hnm
      as (n1 & n2 & -> & (c & -> & Hc)%matches_word_inv & Hn2%star_word_spec).
    exists sl, (String c n2). repeat split.
    + apply matches_opt_inv in Hsl as [->| ->%matches_lit_inv]; eauto.
    + done.
    + simpl. by rewrite Hc, Hn2.
  - intros (slash & name & -> & Hsl & Hne & Hw).
    destruct name as [|c name]; [done|].
    simpl in Hw. apply andb_true_iff in Hw as [Hc Hw].
    change ("<" +:+ slash +:+ String c name +:+ ">")
      with (String "<" "" +:+ slash +:+ (String c "" +:+ name) +:+ ">").
    constructor; [constructor|].
    constructor; [destruct Hsl as [->| ->]; eauto|].
    constructor; [|constructor].
    constructor; [eauto|by apply star_word_spec].
Qed.

Lemma matches_id_wildcard w : matches id_wildcard w <-> ws_html_comma w.
Proof.
  unfold id_wildcard. fold tag_re. split.
  - intros H%matches_group_inv. revert w H.
    apply matches_star_ind; [constructor|].
    intros s1 s2 H1 _ IH.
    apply matches_alt_inv in H1 as [(c & -> & Hc)%matches_space_inv|H1].
    { by constructor. }
    apply matches_alt_inv in H1 as [H1%matches_tag| ->%matches_lit_inv].
    + by constructor.
    + by constructor.
  - intros H. constructor.
    induction H as [|c s Hc _ IH|s _ IH|t s Ht _ IH]; [eauto|..].
    + change (String c s) with (String c "" +:+ s). eauto.
    + change (String "," s) with (String "," "" +:+ s). eauto 6.
    + apply matches_tag in Ht. eauto 6.
Qed.

Lemma ws_plus_no_tag w : matches ws_plus w -> str_has "<" w = false.
Proof.
  intros [_ Hw]%matches_ws_plus. eapply str_all_lacks, Hw. reflexivity.
Qed.

(** ** The patterns of the four variants, compiled *)

Create HintDb parses.
#[local] Hint Resolve parses_app parses_escape parses_numeral parses_nil
  parses_ws_plus parses_ws_opt parses_comma_opt parses_whitespace_regex
  parses_at parses_supra parses_comma pretty_Z_numeral : parses.

Lemma compile_full c v rf p :
  volume c = Some v -> reporter_found c = Some rf -> page c = Some p ->
  exists pattern,
    as_regex (FullCitation c) = Ok pattern /\
    compile pattern = Some (seq_re (full_items v rf p)).
Proof.
  intros Hv Hr Hp. eexists. split; [by apply FullCitation_as_regex_shape|].
  apply compile_parses. unfold full_items. auto 10 with parses.
Qed.

Lemma compile_shortform c ag v rf p :
  volume c = Some v -> reporter_found c = Some rf -> page c = Some p ->
  exists pattern,
    as_regex (ShortformCitation c ag) = Ok pattern /\
    compile pattern = Some (seq_re (shortform_items ag v rf p)).
Proof.
  intros Hv Hr Hp. eexists.
  split; [by apply ShortformCitation_as_regex_shape|].
  apply compile_parses. unfold shortform_items.
  change "(,?)(\s+)at(\s+)" with ("(,?)" +:+ "(\s+)" +:+ "at" +:+ "(\s+)").
  rewrite !sapp_assoc. auto 15 with parses.
Qed.

Lemma parses_supra_volume c :
  parses_to (supra_volume_part c) (supra_volume_items c).
Proof.
  unfold supra_volume_part, supra_volume_items.
  destruct (volume c) as [v|]; [destruct (v =? 0)%Z|]; auto with parses.
Qed.

Lemma parses_supra_page c :
  parses_to (supra_page_part c) (supra_page_items c).
Proof.
  unfold supra_page_part, supra_page_items.
  destruct (page c) as [p|]; [destruct (String.eqb p "")|]; auto with parses.
  change ",(\s+)at(\s+)" with ("," +:+ "(\s+)" +:+ "at" +:+ "(\s+)").
  rewrite !sapp_assoc. auto 10 with parses.
Qed.

Lemma compile_supra c ag :
  exists pattern,
    as_regex (SupraCitation c ag) = Ok pattern /\
    compile pattern = Some (seq_re (supra_items c ag)).
Proof.
  eexists. split; [by apply SupraCitation_as_regex_shape|].
  apply compile_parses. unfold supra_items.
  auto 10 using parses_supra_volume, parses_supra_page with parses.
Qed.

Lemma parses_join toks :
  parses_to (join whitespace_regex (escape <$> toks)) (id_after_items toks).
Proof.
  induction toks as [|t toks IH]; [auto with parses|].
  destruct toks as [|t' toks]; [cbn; auto with parses|].
  change (join whitespace_regex (escape <$> t :: t' :: toks))
    with (escape t +:+ whitespace_regex +:+
          join whitespace_regex (escape <$> t' :: toks)).
  change (id_after_items (t :: t' :: toks))
    with (lit_items t ++ [id_wildcard] ++ id_after_items (t' :: toks)).
  auto with parses.
Qed.

Lemma compile_id c idt toks lnk :
  exists pattern,
    as_regex (IdCitation c (Some idt) (Some toks) lnk) = Ok pattern /\
    compile pattern = Some (seq_re (id_items idt toks)).
Proof.
  eexists. split; [by apply IdCitation_as_regex_shape|].
  apply compile_parses. unfold id_items.
  auto 10 using parses_join with parses.
Qed.

(** The strings the pattern of a full citation matches. *)
Lemma matches_full v rf p s :
  matches (seq_re (full_items v rf p)) s <->
  exists w1 w2 w3,
    s = pretty v +:+ w1 +:+ rf +:+ w2 +:+ p +:+ w3 /\
    matches ws_plus w1 /\ matches ws_plus w2 /\ matches ws_opt w3.
Proof.
  rewrite seq_re_spec. unfold full_items. split.
  - intros (s1 & -> & H)%matches_seq_lits.
    apply matches_seq_item in H as (w1 & s2 & -> & Hw1 & H).
    apply matches_seq_lits in H as (s3 & -> & H).
    apply matches_seq_item in H as (w2 & s4 & -> & Hw2 & H).
    apply matches_seq_lits in H as (s5 & -> & H).
    apply matches_seq_cons_inv in H as (w3 & s6 & -> & Hw3 & H).
    inversion H; subst. exists w1, w2, w3. by rewrite sapp_nil_r.
  - intros (w1 & w2 & w3 & -> & Hw1 & Hw2 & Hw3).
    apply matches_seq_lits. eexists. split; [done|].
    apply matches_seq_item. eexists _, _. split; [done|]. split; [done|].
    apply matches_seq_lits. eexists. split; [done|].
    apply matches_seq_item. eexists _, _. split; [done|]. split; [done|].
    apply matches_seq_lits. eexists. split; [done|].
    rewrite <-(sapp_nil_r w3). constructor; [exact Hw3|constructor].
Qed.

(** The strings the pattern of a short form citation matches. *)
Lemma matches_shortform ag v rf p s :
  matches (seq_re (shortform_items ag v rf p)) s <->
  exists w1 w2 c w3 w4 w5,
    s = ag +:+ w1 +:+ pretty v +:+ w2 +:+ rf +:+ c +:+ w3 +:+ "at" +:+ w4
        +:+ p +:+ w5 /\
    matches ws_plus w1 /\ matches ws_plus w2 /\ matches comma_opt c /\
    matches ws_plus w3 /\ matches ws_plus w4 /\ matches ws_opt w5.
Proof.
  rewrite seq_re_spec. unfold shortform_items. split.
  - intros (s1 & -> & H)%matches_seq_lits.
    apply matches_seq_item in H as (w1 & s2 & -> & Hw1 & H).
    apply matches_seq_lits in H as (s3 & -> & H).
    apply matches_seq_item in H as (w2 & s4 & -> & Hw2 & H).
    apply matches_seq_lits in H as (s5 & -> & H).
    apply matches_seq_item in H as (c & s6 & -> & Hc & H).
    apply matches_seq_item in H as (w3 & s7 & -> & Hw3 & H).
    apply matches_seq_lits in H as (s8 & -> & H).
    apply matches_seq_item in H as (w4 & s9 & -> & Hw4 & H).
    apply matches_seq_lits in H as (s10 & -> & H).
    apply matches_seq_cons_inv in H as (w5 & s11 & -> & Hw5 & H).
    inversion H; subst. exists w1, w2, c, w3, w4, w5. by rewrite sapp_nil_r.
  - intros (w1 & w2 & c & w3 & w4 & w5 & -> & Hw1 & Hw2 & Hc & Hw3 & Hw4 & Hw5).
    apply matches_seq_lits. eexists. split; [done|].
    apply matches_seq_item. eexists _, _. split; [done|]. split; [done|].
    apply matches_seq_lits. eexists. split; [done|].
    apply matches_seq_item. eexists _, _. split; [done|]. split; [done|].
    apply matches_seq_lits. eexists. split; [done|].
    apply matches_seq_item. eexists _, _. split; [done|]. split; [done|].
    apply matches_seq_item. eexists _, _. split; [done|]. split; [done|].
    apply matches_seq_lits. eexists. split; [done|].
    apply matches_seq_item. eexists _, _. split; [done|]. split; [done|].
    apply matches_seq_lits. eexists. split; [done|].
    rewrite <-(sapp_nil_r w5). constructor; [exact Hw5|constructor].
Qed.

Lemma matches_seq_nil s : matches_seq [] s <-> s = "".
Proof. split; [by inversion 1|]. intros ->. constructor. Qed.

Lemma matches_seq_app L1 L2 s :
  matches_seq (L1 ++ L2) s <->
  exists s1 s2, s = s1 +:+ s2 /\ matches_seq L1 s1 /\ matches_seq L2 s2.
Proof.
  revert s. induction L1 as [|r L1 IH]; intros s; cbn [app].
  - split.
    + intros H. exists "", s. repeat split; [constructor|done].
    + by intros (s1 & s2 & -> & ->%matches_seq_nil & H).
  - split.
    + intros (a & s' & -> & Ha & (s1 & s2 & -> & H1 & H2)%IH)%matches_seq_cons_inv.
      exists (a +:+ s1), s2. rewrite sapp_assoc. repeat split; [|done].
      by constructor.
    + intros (s1 & s2 & -> & (a & s' & -> & Ha & H1)%matches_seq_cons_inv & H2).
      rewrite sapp_assoc. constructor; [done|]. apply IH. eauto.
Qed.

Lemma matches_seq_lits_only p s : matches_seq (lit_items p) s <-> s = p.
Proof.
  rewrite <-(app_nil_r (lit_items p)), matches_seq_lits. split.
  - intros (s' & -> & ->%matches_seq_nil). apply sapp_nil_r.
  - intros ->. exists "". split; [by rewrite sapp_nil_r|constructor].
Qed.

Lemma matches_supra_volume c t :
  matches_seq (supra_volume_items c) t <-> supra_volume_text c t.
Proof.
  unfold supra_volume_items, supra_volume_text.
  destruct (volume c) as [v|]; [destruct (v =? 0)%Z|];
    try apply matches_seq_nil.
  rewrite matches_seq_lits. split.
  - intros (s' & -> & (w & s2 & -> & Hw & ->%matches_seq_nil)%matches_seq_cons_inv).
    exists w. by rewrite sapp_nil_r.
  - intros (w & -> & Hw). eexists. split; [done|].
    rewrite <-(sapp_nil_r w). constructor; [done|constructor].
Qed.

Lemma matches_supra_page c t :
  matches_seq (supra_page_items c) t <-> supra_page_text c t.
Proof.
  unfold supra_page_items, supra_page_text.
  destruct (page c) as [p|]; [destruct (String.eqb p "")|];
    try apply matches_seq_nil.
  rewrite matches_seq_lits. split.
  - intros (s1 & -> & H).
    apply matches_seq_item in H as (w1 & s2 & -> & Hw1 & H).
    apply matches_seq_lits in H as (s3 & -> & H).
    apply matches_seq_item in H as (w2 & s4 & -> & Hw2 & H).
    apply matches_seq_lits_only in H as ->. by exists w1, w2.
  - intros (w1 & w2 & -> & Hw1 & Hw2). eexists. split; [done|].
    apply matches_seq_item. eexists _, _. split; [done|]. split; [done|].
    apply matches_seq_lits. eexists. split; [done|].
    apply matches_seq_item. eexists _, _. split; [done|]. split; [done|].
    by apply matches_seq_lits_only.
Qed.

(** The strings the pattern of a supra citation matches. *)
Lemma matches_supra c ag s :
  matches (seq_re (supra_items c ag)) s <->
  exists w1 vol pg w,
    s = ag +:+ w1 +:+ vol +:+ "supra" +:+ pg +:+ w /\
    matches ws_plus w1 /\ supra_volume_text c vol /\ supra_page_text c pg /\
    matches ws_opt w.
Proof.
  rewrite seq_re_spec. unfold supra_items. split.
  - intros (s1 & -> & H)%matches_seq_lits.
    apply matches_seq_item in H as (w1 & s2 & -> & Hw1 & H).
    apply matches_seq_app in H as (vol & s3 & -> & Hvol & H).
    apply matches_seq_lits in H as (s4 & -> & H).
    apply matches_seq_app in H as (pg & s5 & -> & Hpg & H).
    apply matches_seq_cons_inv in H as (w & s6 & -> & Hw & ->%matches_seq_nil).
    exists w1, vol, pg, w. rewrite sapp_nil_r.
    apply matches_supra_volume in Hvol. apply matches_supra_page in Hpg.
    done.
  - intros (w1 & vol & pg & w & -> & Hw1 & Hvol & Hpg & Hw).
    apply matches_seq_lits. eexists. split; [done|].
    apply matches_seq_item. eexists _, _. split; [done|]. split; [done|].
    apply matches_seq_app. eexists _, _. split; [done|].
    split; [by apply matches_supra_volume|].
    apply matches_seq_lits. eexists. split; [done|].
    apply matches_seq_app. eexists _, _. split; [done|].
    split; [by apply matches_supra_page|].
    rewrite <-(sapp_nil_r w). constructor; [exact Hw|constructor].
Qed.

(** ** Examples *)

(** Deciding [occurs] by running the matcher. *)
Lemma occurs_decide pattern r text b :
  compile pattern = Some r -> searchb r text = b ->
  if b then occurs r text else ~ occurs r text.
Proof.
  intros _ <-. destruct (searchb r text) eqn:H.
  - by apply searchb_spec.
  - intros H'%searchb_spec. congruence.
Qed.

(** C7 as stated fails: the patterns of these full, short form and
    supra citations match their occurrence in plain text, and do not
    match it once a tag stands between two tokens. *)
Lemma html_tag_between_tokens :
  (as_regex adarand = Ok adarand_pattern /\
   exists r, compile adarand_pattern = Some r /\
     occurs r "Pena, 515 U. S. 200, 240 (1995)" /\
     ~ occurs r "Pena, 515 <i>U. S.</i> 200, 240 (1995)") /\
  (as_regex adarand_short_unmatched = Ok adarand_short_pattern /\
   exists r, compile adarand_short_pattern = Some r /\
     occurs r "See Adarand, 515 U. S., at 241." /\
     ~ occurs r "See Adarand, 515 <i>U. S.</i>, at 241.") /\
  (as_regex supra_at_240 = Ok supra_at_240_pattern /\
   exists r, compile supra_at_240_pattern = Some r /\
     occurs r "See Adarand, supra, at 240." /\
     ~ occurs r "See Adarand, <i>supra</i>, at 240.").
Proof.
  repeat split.
  - eexists. split; [reflexivity|]. split.
    + by apply (occurs_decide adarand_pattern _ _ true).
    + by apply (occurs_decide adarand_pattern _ _ false).
  - eexists. split; [reflexivity|]. split.
    + by apply (occurs_decide adarand_short_pattern _ _ true).
    + by apply (occurs_decide adarand_short_pattern _ _ false).
  - eexists. split; [reflexivity|]. split.
    + by apply (occurs_decide supra_at_240_pattern _ _ true).
    + by apply (occurs_decide supra_at_240_pattern _ _ false).
Qed.

(** The id pattern does match across tags and commas. *)
Example id_pattern_across_tags :
  as_regex id_at_240 = Ok id_at_240_pattern /\
  exists r, compile id_at_240_pattern = Some r /\
    occurs r "foo bar, <i>Id.</i>, at <b>240</b>".
Proof.
  split; [reflexivity|]. eexists. split; [reflexivity|].
  by apply (occurs_decide id_at_240_pattern _ _ true).
Qed.

(** [\s] is the whitespace of a pattern that is a string: the
    separator may be the character of code 28. *)
Example full_pattern_file_separator :
  exists r, compile adarand_pattern = Some r /\
    occurs r ("515" +:+ String "028" "U. S. 200").
Proof.
  eexists. split; [reflexivity|].
  by apply (occurs_decide adarand_pattern _ _ true).
Qed.

(** A tag with an attribute is not a tag for the id pattern. *)
Example id_pattern_tag_with_attribute :
  exists r, compile id_at_240_pattern = Some r /\
    occurs r "<i>Id.</i>, <b>at</b> 240" /\
    ~ occurs r (q "<i>Id.</i>, <a href='/c/1/'>at</a> 240").
Proof.
  eexists. split; [reflexivity|]. split.
  - by apply (occurs_decide id_at_240_pattern _ _ true).
  - by apply (occurs_decide id_at_240_pattern _ _ false).
Qed.

(** C7, amended: every pattern is a sequence of fixed tokens, as
    literal text, and of capturing groups that separate them. In the
    pattern of an id citation the separating group matches any run of
    whitespace, commas and tags that are a name in angle brackets, with
    or without a slash before the name ([<i>], [</i>]). In the patterns
    of full, short form and supra citations it is [(\s+)], with [(,?)]
    after the reporter of a short form and [(\s?)] at the end: [(\s+)]
    matches non-empty whitespace and nothing else, so no text with [<]
    in it. The patterns of full, short form and supra citations match
    exactly their tokens in their order with whitespace between them (in
    a short form an optional comma before it after the reporter), and an
    optional whitespace character at the end. *)
Theorem regex_separators :
  (forall c v rf p,
      volume c = Some v -> reporter_found c = Some rf -> page c = Some p ->
      exists pattern,
        as_regex (FullCitation c) = Ok pattern /\
        compile pattern = Some (seq_re (full_items v rf p))) /\
  (forall c ag v rf p,
      volume c = Some v -> reporter_found c = Some rf -> page c = Some p ->
      exists pattern,
        as_regex (ShortformCitation c ag) = Ok pattern /\
        compile pattern = Some (seq_re (shortform_items ag v rf p))) /\
  (forall c ag,
      exists pattern,
        as_regex (SupraCitation c ag) = Ok pattern /\
        compile pattern = Some (seq_re (supra_items c ag))) /\
  (forall c idt toks lnk,
      exists pattern,
        as_regex (IdCitation c (Some idt) (Some toks) lnk) = Ok pattern /\
        compile pattern = Some (seq_re (id_items idt toks))) /\
  (forall items s, matches (seq_re items) s <-> matches_seq items s) /\
  (forall w, matches id_wildcard w <-> ws_html_comma w) /\
  (forall w, matches ws_plus w <-> w <> "" /\ str_all is_space w = true) /\
  (forall w, matches ws_plus w -> str_has "<" w = false) /\
  (forall v rf p s,
      matches (seq_re (full_items v rf p)) s <->
      exists w1 w2 w3,
        s = pretty v +:+ w1 +:+ rf +:+ w2 +:+ p +:+ w3 /\
        matches ws_plus w1 /\ matches ws_plus w2 /\ matches ws_opt w3) /\
  (forall ag v rf p s,
      matches (seq_re (shortform_items ag v rf p)) s <->
      exists w1 w2 c w3 w4 w5,
        s = ag +:+ w1 +:+ pretty v +:+ w2 +:+ rf +:+ c +:+ w3 +:+ "at" +:+ w4
            +:+ p +:+ w5 /\
        matches ws_plus w1 /\ matches ws_plus w2 /\ matches comma_opt c /\
        matches ws_plus w3 /\ matches ws_plus w4 /\ matches ws_opt w5) /\
  (forall c ag s,
      matches (seq_re (supra_items c ag)) s <->
      exists w1 vol pg w,
        s = ag +:+ w1 +:+ vol +:+ "supra" +:+ pg +:+ w /\
        matches ws_plus w1 /\ supra_volume_text c vol /\
        supra_page_text c pg /\ matches ws_opt w) /\
  (forall w,
      matches ws_opt w <->
      w = "" \/ exists c, w = String c "" /\ is_space c = true) /\
  (forall w, matches comma_opt w <-> w = "" \/ w = ",").
Proof.
  split; [exact compile_full|]. split; [exact compile_shortform|].
  split; [exact compile_supra|]. split; [exact compile_id|].
  split; [exact seq_re_spec|]. split; [exact matches_id_wildcard|].
  split; [exact matches_ws_plus|]. split; [exact ws_plus_no_tag|].
  split; [exact matches_full|]. split; [exact matches_shortform|].
  split; [exact matches_supra|]. split; [exact matches_ws_opt|].
  exact matches_comma_opt.
Qed.

(** The patterns of Adarand in full and in short form; a space has no
    [<]. *)
Lemma regex_separators_witness :
  (exists pattern,
      as_regex adarand = Ok pattern /\
      compile pattern = Some (seq_re (full_items 515 "U. S." "200"))) /\
  (exists pattern,
      as_regex adarand_short_unmatched = Ok pattern /\
      compile pattern
      = Some (seq_re (shortform_items "Adarand," 515 "U. S." "241"))) /\
  str_has "<" " " = false.
Proof.
  destruct regex_separators as (Hf & Hs & _ & _ & _ & _ & Hw & Ht & _).
  split; [|split].
  - apply (Hf (base adarand)); reflexivity.
  - apply (Hs adarand_241); reflexivity.
  - apply Ht, Hw. done.
Defined.

(** ** [__repr__] *)

Lemma truthy_str_some o :
  truthy (of_opt_str o) = true -> exists s, o = Some s /\ s <> "".
Proof.
  destruct o as [s|]; [|done]. cbn. intros H. exists s. split; [done|].
  intros ->. done.
Qed.

Lemma Citation_repr_ok x v :
  volume (base x) = Some v -> exists s, Citation_repr x = Ok s.
Proof.
  intros Hv. unfold Citation_repr. rewrite (base_citation_some x v Hv).
  cbn [mbind result_bind].
  destruct (year (base x)) as [y|], (court (base x)) as [ct|];
    cbn [of_opt_int of_opt_str truthy andb];
    try destruct (negb (String.eqb ct "")); try destruct (negb (y =? 0)%Z);
    cbn; eauto.
Qed.

(** X1: [repr] raises, with [TypeError], exactly for the full and short
    form citations that have no volume; every other object is printed,
    a missing reporter or page as "None". *)
Theorem repr_defined (x : citation) :
  (printable x -> exists s, citation_repr x = Ok s) /\
  (~ printable x -> citation_repr x = Raise TypeError).
Proof.
  destruct x as [c|c ag|c ag|c idt after lnk]; cbn [printable citation_repr].
  - split.
    + intros [v Hv]. by apply (Citation_repr_ok (FullCitation c) v).
    + intros Hn. unfold Citation_repr, base_citation. cbn [base].
      destruct (volume c); [destruct Hn; eauto|done].
  - unfold ShortformCitation_repr. split.
    + intros [v ->]. cbn. eauto.
    + intros Hn. destruct (volume c); [destruct Hn; eauto|done].
  - unfold SupraCitation_repr. split; [cbn; eauto|tauto].
  - unfold IdCitation_repr. split; [cbn; eauto|tauto].
Qed.

(** "Adarand" is printed, an object without volume is not. *)
Lemma repr_defined_witness :
  (exists s, citation_repr adarand = Ok s) /\
  citation_repr (FullCitation (Citation_init (Some "U.S.") (Some "200") None
                                 no_kwargs)) = Raise TypeError.
Proof.
  split.
  - apply (proj1 (repr_defined adarand)). cbn. eauto.
  - apply (proj2 (repr_defined _)). cbn. by intros [v Hv].
Defined.

(** X2: the plaintiff is printed only next to a defendant: without a
    defendant, [repr] is the same whatever the plaintiff. *)
Theorem repr_plaintiff_needs_defendant (c : Citation) (p : option string) :
  truthy (of_opt_str (defendant c)) = false ->
  citation_repr (FullCitation (with_plaintiff c p))
  = citation_repr (FullCitation c).
Proof.
  intros Hd. cbn [citation_repr]. unfold Citation_repr.
  cbn [base with_plaintiff defendant plaintiff extra court year].
  rewrite Hd. reflexivity.
Qed.

Lemma repr_plaintiff_needs_defendant_witness :
  citation_repr
    (FullCitation (with_plaintiff (Citation_init (Some "U.S.") (Some "200")
                                     (Some 515%Z) no_kwargs) (Some "Adarand")))
  = Ok "515 U.S. 200 ".
Proof.
  rewrite repr_plaintiff_needs_defendant; reflexivity.
Defined.

(** X3: a full citation with both parties and a year, and neither
    extra text nor court, is printed
    "plaintiff v. defendant volume reporter page (year)". *)
Theorem repr_case_name (c : Citation) (v y : Z) (r pg d p : string) :
  volume c = Some v -> reporter c = Some r -> page c = Some pg ->
  defendant c = Some d -> d <> "" -> plaintiff c = Some p -> p <> "" ->
  truthy (of_opt_str (extra c)) = false ->
  truthy (of_opt_str (court c)) = false ->
  year c = Some y -> y <> 0%Z ->
  citation_repr (FullCitation c) =
    Ok (p +:+ " v. " +:+ d +:+ " " +:+ pretty v +:+ " " +:+ r +:+ " " +:+ pg
        +:+ " (" +:+ pretty y +:+ ")").
Proof.
  intros Hv Hr Hp Hd Hdne Hpl Hplne He Hc Hy Hyne.
  cbn [citation_repr]. unfold Citation_repr.
  rewrite (base_citation_some _ v) by done. cbn [base mbind result_bind].
  rewrite Hr, Hp, Hd, Hpl, He, Hc, Hy. cbn [of_opt_str of_opt_int truthy py_str].
  apply String.eqb_neq in Hdne, Hplne. rewrite Hdne, Hplne.
  apply Z.eqb_neq in Hyne. rewrite Hyne. cbn.
  repeat (progress (cbn; rewrite ?sapp_assoc, ?sapp_nil_r)). reflexivity.
Qed.

Lemma repr_case_name_witness :
  citation_repr adarand
  = Ok "Adarand v. Constructors, Inc. 515 U.S. 200 (1995)".
Proof.
  apply (repr_case_name (base adarand) 515 1995 "U.S." "200"
           "Constructors, Inc." "Adarand"); done.
Defined.

(** X4: without court and without year nothing follows in parentheses,
    and the last [join] leaves a space at the end. *)
Theorem repr_trailing_space (c : Citation) (v : Z) :
  volume c = Some v ->
  truthy (of_opt_str (court c)) = false ->
  truthy (of_opt_int (year c)) = false ->
  exists s, citation_repr (FullCitation c) = Ok (s +:+ " ").
Proof.
  intros Hv Hc Hy. cbn [citation_repr]. unfold Citation_repr.
  rewrite (base_citation_some _ v) by done. cbn [base mbind result_bind].
  rewrite Hc, Hy. cbn [andb mbind result_bind join]. eauto.
Qed.

Lemma repr_trailing_space_witness :
  exists s,
    citation_repr (FullCitation (Citation_init (Some "U.S.") (Some "200")
                                   (Some 515%Z) no_kwargs)) = Ok (s +:+ " ").
Proof. apply (repr_trailing_space _ 515); reflexivity. Defined.

(** ** [__eq__] *)

Lemma py_eq_opt_str o1 o2 :
  py_eq (of_opt_str o1) (of_opt_str o2) = true <-> o1 = o2.
Proof.
  destruct o1 as [a|], o2 as [b|]; cbn; try (split; [done|discriminate]).
  - rewrite String.eqb_eq. split; [by intros ->|by intros [= ->]].
  - done.
Qed.

Lemma py_eq_opt_int o1 o2 :
  py_eq (of_opt_int o1) (of_opt_int o2) = true <-> o1 = o2.
Proof.
  destruct o1 as [a|], o2 as [b|]; cbn; try (split; [done|discriminate]).
  - rewrite Z.eqb_eq. split; [by intros ->|by intros [= ->]].
  - done.
Qed.

Lemma py_eq_opt_strs o1 o2 :
  py_eq (of_opt_strs o1) (of_opt_strs o2) = true <-> o1 = o2.
Proof.
  destruct o1 as [a|], o2 as [b|]; cbn; try (split; [done|discriminate]).
  - rewrite bool_decide_eq_true. split; [by intros ->|by intros [= ->]].
  - done.
Qed.

Lemma py_eq_bool b1 b2 : py_eq (PBool b1) (PBool b2) = true <-> b1 = b2.
Proof. destruct b1, b2; cbn; split; done. Qed.

Lemma py_eq_str s1 s2 : py_eq (PStr s1) (PStr s2) = true <-> s1 = s2.
Proof. cbn. apply String.eqb_eq. Qed.

Lemma Citation_dict_eq c1 c2 rest1 rest2 :
  length rest1 = length rest2 ->
  dict_eq (Citation_dict c1 ++ rest1) (Citation_dict c2 ++ rest2) = true ->
  c1 = c2.
Proof.
  intros Hlen. unfold dict_eq, Citation_dict.
  intros [_ H]%andb_true_iff. cbn in H.
  repeat (apply andb_true_iff in H as [?%py_eq_opt_str H]
          || apply andb_true_iff in H as [?%py_eq_opt_int H]).
  destruct c1, c2; cbn in *. by simplify_eq.
Qed.

Lemma py_eq_refl v : py_eq v v = true.
Proof.
  destruct v as [|z|s|b|l]; cbn; auto using Z.eqb_refl, String.eqb_refl.
  - by destruct b.
  - by apply bool_decide_eq_true.
Qed.

Ltac split_dict_eq H :=
  repeat (apply andb_true_iff in H as [?%py_eq_opt_str H]
          || apply andb_true_iff in H as [?%py_eq_opt_int H]
          || apply andb_true_iff in H as [?%py_eq_opt_strs H]
          || apply andb_true_iff in H as [?%String.eqb_eq H]
          || apply andb_true_iff in H as [?%Bool.eqb_prop H]
          || apply andb_true_iff in H as [_ H]).

Lemma dict_eq_refl o : dict_eq (object_dict o) (object_dict o) = true.
Proof.
  unfold dict_eq. rewrite Nat.eqb_refl.
  destruct o as [[c|c ag|c ag|c idt after lnk]|t]; cbn;
    rewrite ?py_eq_refl, ?String.eqb_refl, ?Z.eqb_refl; cbn;
    repeat (apply andb_true_iff; split);
    try done; try apply py_eq_refl; try apply bool_decide_eq_true; try done;
    by destruct lnk.
Qed.

Lemma eq_dict a b : eq_ a b = true <-> object_dict a = object_dict b.
Proof.
  split.
  - unfold eq_, dict_eq.
    destruct a as [[c1|c1 a1|c1 a1|c1 i1 t1 l1]|m1],
             b as [[c2|c2 a2|c2 a2|c2 i2 t2 l2]|m2];
      cbn [object_dict dict_of Citation_dict app length Nat.eqb andb];
      try discriminate;
      intros H; cbn in H; split_dict_eq H; cbn;
      try (destruct c1, c2; cbn in *); by simplify_eq.
  - intros H. unfold eq_. rewrite H. apply dict_eq_refl.
Qed.


(** X6: the class plays no part in [==]: a short form citation and a
    supra citation with the same attributes are equal, and [!=] says
    they do not differ. *)
Theorem eq_ignores_class (c : Citation) (ag : string) :
  eq_ (Cite (ShortformCitation c ag)) (Cite (SupraCitation c ag)) = true /\
  ne_ (Cite (ShortformCitation c ag)) (Cite (SupraCitation c ag)) = false.
Proof.
  assert (eq_ (Cite (ShortformCitation c ag)) (Cite (SupraCitation c ag))
          = true) as H by (by apply eq_dict).
  unfold ne_. by rewrite H.
Qed.

(** X7: objects equal for [==] are equal for [fuzzy_eq], whatever
    [hash] is. *)
Theorem eq_implies_fuzzy_eq (hash : string -> Z) (x y : citation) :
  eq_ (Cite x) (Cite y) = true -> fuzzy_eq hash x y = true.
Proof.
  intros H%eq_dict. cbn [object_dict] in H.
  unfold fuzzy_eq, fuzzy_hash, getattr. rewrite H. apply Z.eqb_refl.
Qed.

Lemma eq_implies_fuzzy_eq_witness :
  fuzzy_eq (fun s => Z.of_nat (String.length s)) adarand_short adarand_short
  = true.
Proof. apply eq_implies_fuzzy_eq. reflexivity. Defined.

(** The converse fails: the two mentions of Adarand are equal for
    [fuzzy_eq] and differ for [==]. *)
Example fuzzy_eq_not_eq :
  eq_ (Cite adarand) (Cite adarand_1996) = false /\
  forall hash, fuzzy_eq hash adarand adarand_1996 = true.
Proof.
  split; [reflexivity|]. intros hash. unfold fuzzy_eq.
  rewrite !fuzzy_hash_key. apply Z.eqb_eq. reflexivity.
Qed.

(** ** [fuzzy_eq] on objects without identity *)

(** X8: an id citation has none of the five attributes that
    [fuzzy_hash] reads, and neither has a supra citation built without
    page and volume: as built, all these objects are equal for
    [fuzzy_eq], whatever their tokens. *)
Theorem fuzzy_eq_id_citations (hash : string -> Z) :
  (forall idt after lnk idt' after' lnk',
      fuzzy_eq hash (IdCitation_init idt after lnk)
        (IdCitation_init idt' after' lnk') = true) /\
  (forall idt after lnk ag,
      fuzzy_eq hash (IdCitation_init idt after lnk)
        (SupraCitation_init ag None None no_kwargs) = true).
Proof.
  split; intros; unfold fuzzy_eq; rewrite !fuzzy_hash_key; apply Z.eqb_refl.
Qed.

(** ** [to_model] with a known reporter *)

Lemma py_index_in_range {A} (l : list A) (i : Z) :
  (- Z.of_nat (length l) <= i < Z.of_nat (length l))%Z ->
  exists e,
    py_index l (PInt i) = Ok e /\
    l !! Z.to_nat (i mod Z.of_nat (length l)) = Some e.
Proof.
  intros Hi. unfold py_index.
  set (n := Z.of_nat (length l)) in *.
  assert ((if (i <? 0)%Z then (i + n)%Z else i) = (i mod n)%Z) as ->.
  { destruct (Z.ltb_spec i 0).
    - rewrite <-(Z.mod_small (i + n) n) by lia.
      by rewrite <-(Z_mod_plus_full i 1 n), Z.mul_1_l.
    - by rewrite Z.mod_small by lia. }
  assert (0 <= i mod n < n)%Z as Hm by (apply Z.mod_pos_bound; lia).
  destruct (Z.ltb_spec (i mod n) 0); [lia|].
  destruct (lookup_lt_is_Some_2 l (Z.to_nat (i mod n))) as [e He]; [lia|].
  rewrite He. eauto.
Qed.

Lemma py_index_out_of_range {A} (l : list A) (i : Z) :
  (i < - Z.of_nat (length l) \/ Z.of_nat (length l) <= i)%Z ->
  py_index l (PInt i) = Raise IndexError.
Proof.
  intros Hi. unfold py_index.
  destruct (Z.ltb_spec i 0).
  - destruct (Z.ltb_spec (i + Z.of_nat (length l)) 0); [done|lia].
  - destruct (Z.ltb_spec i 0); [lia|].
    rewrite lookup_ge_None_2; [done|lia].
Qed.

(** X9: with the canonical reporter in the taxonomy, an index [i]
    within its editions (a negative one counts from the last edition), a
    [cite_type] in the edition and a mapping for it, [to_model] returns
    a model object of the mapped type; its keyword arguments are the
    attributes of the object that are fields of the model. *)
Theorem to_model_returns
    (entry_value cite_type_enum : Type)
    (REPORTERS : gmap string (list (gmap string entry_value)))
    (get_all_field_names : list string)
    (map_reporter_db_cite_type : entry_value -> result cite_type_enum)
    (x : citation) (k : string)
    (canon : list (gmap string entry_value)) (i : Z)
    (entry : gmap string entry_value) (t : entry_value)
    (ty : cite_type_enum) :
  canonical_reporter (base x) = Some k ->
  REPORTERS !! k = Some canon ->
  lookup_index (base x) = Some i ->
  (- Z.of_nat (length canon) <= i < Z.of_nat (length canon))%Z ->
  canon !! Z.to_nat (i mod Z.of_nat (length canon)) = Some entry ->
  entry !! "cite_type" = Some t ->
  map_reporter_db_cite_type t = Ok ty ->
  (to_model entry_value REPORTERS get_all_field_names cite_type_enum
    map_reporter_db_cite_type x) =
    Ok {| mc_kwargs :=
            filter (fun kv => kv.1 ∈ get_all_field_names) (dict_of x);
          mc_type := Some ty |}.
Proof.
  intros Hk Hc Hi Hr He Ht Hm. unfold to_model.
  rewrite Hk, Hi. cbn [of_opt_str of_opt_int dict_get]. rewrite Hc.
  cbn [mbind result_bind].
  destruct (py_index_in_range canon i Hr) as (e & -> & He').
  rewrite He in He'. injection He' as <-.
  cbn [mbind result_bind]. rewrite Ht. cbn [mbind result_bind].
  rewrite Hm. reflexivity.
Qed.

(** X10: with the canonical reporter in the taxonomy, [to_model] raises
    [TypeError] when [lookup_index] is [None], [IndexError] when it is
    outside the editions, [KeyError] when the edition has no
    [cite_type], and what [map_reporter_db_cite_type] raises. *)
Theorem to_model_raises
    (entry_value cite_type_enum : Type)
    (REPORTERS : gmap string (list (gmap string entry_value)))
    (get_all_field_names : list string)
    (map_reporter_db_cite_type : entry_value -> result cite_type_enum)
    (x : citation) (k : string)
    (canon : list (gmap string entry_value)) :
  canonical_reporter (base x) = Some k ->
  REPORTERS !! k = Some canon ->
  (lookup_index (base x) = None -> (to_model entry_value REPORTERS get_all_field_names cite_type_enum
    map_reporter_db_cite_type x) = Raise TypeError) /\
  (forall i,
      lookup_index (base x) = Some i ->
      (i < - Z.of_nat (length canon) \/ Z.of_nat (length canon) <= i)%Z ->
      (to_model entry_value REPORTERS get_all_field_names cite_type_enum
    map_reporter_db_cite_type x) = Raise IndexError) /\
  (forall i entry,
      lookup_index (base x) = Some i ->
      (- Z.of_nat (length canon) <= i < Z.of_nat (length canon))%Z ->
      canon !! Z.to_nat (i mod Z.of_nat (length canon)) = Some entry ->
      (entry !! "cite_type" = None -> (to_model entry_value REPORTERS get_all_field_names cite_type_enum
    map_reporter_db_cite_type x) = Raise KeyError) /\
      (forall t e,
          entry !! "cite_type" = Some t ->
          map_reporter_db_cite_type t = Raise e ->
          (to_model entry_value REPORTERS get_all_field_names cite_type_enum
    map_reporter_db_cite_type x) = Raise e)).
Proof.
  intros Hk Hc. unfold to_model.
  rewrite Hk. cbn [of_opt_str dict_get]. rewrite Hc. cbn [mbind result_bind].
  split; [|split].
  - by intros ->.
  - intros i -> Hr. cbn [of_opt_int]. by rewrite py_index_out_of_range.
  - intros i entry -> Hr He. cbn [of_opt_int].
    destruct (py_index_in_range canon i Hr) as (e & -> & He').
    rewrite He in He'. injection He' as <-. cbn [mbind result_bind dict_get].
    split.
    + by intros ->.
    + intros t e -> Hm. cbn [mbind result_bind]. by rewrite Hm.
Qed.

(** X11: whatever [to_model] returns passes to the model only fields of
    the model, each with the value the object has for it. *)
Theorem to_model_kwargs
    (entry_value cite_type_enum : Type)
    (REPORTERS : gmap string (list (gmap string entry_value)))
    (get_all_field_names : list string)
    (map_reporter_db_cite_type : entry_value -> result cite_type_enum)
    (x : citation) (m : ModelCitation cite_type_enum)
    (key : string) (v : pyval) :
  (to_model entry_value REPORTERS get_all_field_names cite_type_enum
    map_reporter_db_cite_type x) = Ok m ->
  (key, v) ∈ mc_kwargs _ m ->
  key ∈ get_all_field_names /\ getattr x key = v.
Proof.
  unfold to_model. intros H.
  destruct (dict_get REPORTERS _) as [canon|]; [|done].
  cbn [mbind result_bind] in H.
  destruct (py_index canon _) as [entry|]; [|done].
  cbn [mbind result_bind] in H.
  destruct (dict_get entry _) as [t|]; [|done].
  cbn [mbind result_bind] in H.
  destruct (map_reporter_db_cite_type t) as [ty|]; [|done].
  cbn [mbind result_bind] in H. injection H as <-. cbn [mc_kwargs].
  intros [Hf Hin]%list_elem_of_filter. split; [exact Hf|].
  unfold getattr.
  destruct x as [c|c ag|c ag|c idt after lnk];
    cbn [dict_of Citation_dict app] in Hin;
    repeat (apply elem_of_cons in Hin as [[= -> ->]|Hin]; [reflexivity|]);
    by apply elem_of_nil in Hin.
Qed.

(** The last edition, by the index -1. *)
Lemma to_model_returns_witness :
  to_model string sample_reporters ["reporter"; "volume"; "page"] string Ok
    adarand_last_edition
  = Ok {| mc_kwargs := [("reporter", PStr "U.S."); ("volume", PInt 515);
                        ("page", PStr "200")];
          mc_type := Some "federal" |}.
Proof.
  rewrite (to_model_returns string string sample_reporters
             ["reporter"; "volume"; "page"] Ok
             adarand_last_edition "U.S."
             [ {[ "cite_type" := "federal" ]} ] (-1)
             {[ "cite_type" := "federal" ]} "federal" "federal");
    try reflexivity.
  cbn. lia.
Defined.

(** An index past the only edition. *)
Lemma to_model_raises_witness :
  to_model string sample_reporters ["reporter"; "volume"; "page"] string Ok
    adarand_no_edition
  = Raise IndexError.
Proof.
  apply (proj1 (proj2 (to_model_raises string string sample_reporters
                         ["reporter"; "volume"; "page"] Ok
                         adarand_no_edition "U.S."
                         [ {[ "cite_type" := "federal" ]} ]
                         eq_refl eq_refl)) 1%Z).
  - reflexivity.
  - cbn. lia.
Defined.

(** The keyword [volume] of the model of Adarand. *)
Lemma to_model_kwargs_witness :
  "volume" ∈ ["reporter"; "volume"; "page"] /\
  getattr adarand "volume" = PInt 515.
Proof.
  eapply (to_model_kwargs string string sample_reporters
            ["reporter"; "volume"; "page"] Ok adarand).
  - reflexivity.
  - cbn. apply elem_of_cons. right. apply elem_of_cons. by left.
Defined.

(** ** When [as_regex] and [as_html] return *)

(** X12: [as_regex] returns a pattern when the attributes it escapes or
    formats are set: volume, [reporter_found] and page for full and
    short form citations, the id token and the tokens after it for id
    citations, and always for supra citations. Otherwise it raises
    [TypeError]. *)
Theorem as_regex_defined (x : citation) :
  (regex_ready x -> exists p, as_regex x = Ok p) /\
  (~ regex_ready x -> as_regex x = Raise TypeError).
Proof.
  destruct x as [c|c ag|c ag|c idt after lnk]; cbn [regex_ready].
  - split.
    + intros ([v Hv] & [rf Hr] & [p Hp]). eexists.
      by apply FullCitation_as_regex_shape.
    + intros Hn. cbn [as_regex]. unfold FullCitation_as_regex.
      destruct (volume c), (reporter_found c), (page c);
        try reflexivity. destruct Hn. eauto.
  - split.
    + intros ([v Hv] & [rf Hr] & [p Hp]). eexists.
      by apply ShortformCitation_as_regex_shape.
    + intros Hn. cbn [as_regex]. unfold ShortformCitation_as_regex.
      destruct (volume c), (reporter_found c), (page c);
        try reflexivity. destruct Hn. eauto.
  - split; [|tauto]. intros _. eexists. apply SupraCitation_as_regex_shape.
  - split.
    + intros ([i ->] & [toks ->]). eexists. apply IdCitation_as_regex_shape.
    + intros Hn. cbn [as_regex]. unfold IdCitation_as_regex.
      destruct idt, after; try reflexivity. destruct Hn. eauto.
Qed.

Lemma as_regex_defined_witness :
  (exists p, as_regex adarand = Ok p) /\
  as_regex (IdCitation_init None None false) = Raise TypeError.
Proof.
  split.
  - apply (proj1 (as_regex_defined adarand)). cbn. eauto.
  - apply (proj2 (as_regex_defined _)). cbn. by intros [[? ?] _].
Defined.

Lemma as_html_not_renderable x :
  ~ renderable x -> as_html x = Raise TypeError.
Proof.
  destruct x as [c|c ag|c ag|c idt after lnk]; cbn [renderable as_html].
  - intros Hn. unfold FullCitation_as_html, Citation_dict.
    destruct (volume c); [destruct Hn; eauto|reflexivity].
  - intros Hn. unfold ShortformCitation_as_html, dict_of, Citation_dict.
    destruct (volume c); [destruct Hn; eauto|reflexivity].
  - tauto.
  - intros Hn. destruct after; [destruct Hn; eauto|reflexivity].
Qed.

(** X13: [as_html] returns markup when the volume of a full or short
    form citation is set and when the tokens after an id token are a
    list, and always for a supra citation; otherwise it raises
    [TypeError]. It needs no reporter and no page: what is missing is
    written "None". *)
Theorem as_html_defined (x : citation) :
  (renderable x -> exists h, as_html x = Ok h) /\
  (~ renderable x -> as_html x = Raise TypeError).
Proof.
  split; [|apply as_html_not_renderable].
  destruct x as [c|c ag|c ag|c idt after lnk]; cbn [renderable].
  - intros [v Hv]. eexists. by apply FullCitation_as_html_shape.
  - intros [v Hv]. eexists. by apply ShortformCitation_as_html_shape.
  - intros _. eexists. apply SupraCitation_as_html_shape.
  - intros [toks ->]. eexists. apply IdCitation_as_html_shape.
Qed.

Lemma as_html_defined_witness :
  (exists h,
      as_html (FullCitation (Citation_init None None (Some 515%Z) no_kwargs))
      = Ok h) /\
  as_html (IdCitation_init (Some "Id.") None false) = Raise TypeError.
Proof.
  split.
  - apply (proj1 (as_html_defined _)). cbn. eauto.
  - apply (proj2 (as_html_defined _)). cbn. by intros [? ?].
Defined.

(** X14: [as_html] does not read [reporter_found]: the markup is the
    same whatever text was found, and shows the normalized
    [reporter]. *)
Theorem as_html_ignores_reporter_found (x : citation) (rf : option string) :
  as_html (set_reporter_found x rf) = as_html x.
Proof.
  destruct x as [c|c ag|c ag|c idt after lnk]; cbn [set_reporter_found].
  - destruct (volume c) as [v|] eqn:Hv.
    + rewrite (FullCitation_as_html_shape c v Hv).
      by rewrite (FullCitation_as_html_shape (with_reporter_found c rf) v Hv).
    + rewrite !as_html_not_renderable; [done|..]; cbn; rewrite ?Hv;
        by intros [? ?].
  - destruct (volume c) as [v|] eqn:Hv.
    + rewrite (ShortformCitation_as_html_shape c ag v Hv).
      by rewrite (ShortformCitation_as_html_shape
                    (with_reporter_found c rf) ag v Hv).
    + rewrite !as_html_not_renderable; [done|..]; cbn; rewrite ?Hv;
        by intros [? ?].
  - by rewrite !SupraCitation_as_html_shape.
  - reflexivity.
Qed.

(** X15: [base_citation] of a supra citation built with a volume is the
    volume, the word "None" for the reporter it does not have, and the
    page. *)
Theorem base_citation_supra (ag : string) (pg : option string) (v : Z)
    (kw : Kwargs) :
  base_citation (SupraCitation_init ag pg (Some v) kw)
  = Ok (pretty v +:+ " None " +:+ py_str (of_opt_str pg)).
Proof.
  rewrite (base_citation_some _ v) by done. reflexivity.
Qed.

(** ** The pattern finds the citation in plain text *)

Lemma matches_seq_lits_intro t rest s :
  matches_seq rest s -> matches_seq (lit_items t ++ rest) (t +:+ s).
Proof. intros H. apply matches_seq_lits. eauto. Qed.

Lemma matches_seq_item_intro r rest w s :
  matches r w -> matches_seq rest s -> matches_seq ([r] ++ rest) (w +:+ s).
Proof. intros. by constructor. Qed.

Lemma matches_seq_last r w : matches r w -> matches_seq [r] w.
Proof. intros H. rewrite <-(sapp_nil_r w). constructor; [done|constructor]. Qed.

Lemma matches_seq_nil_app rest s : matches_seq rest s -> matches_seq ([] ++ rest) s.
Proof. done. Qed.

Lemma matches_ws_plus_space : matches ws_plus " ".
Proof. by apply matches_ws_plus. Qed.

Lemma matches_ws_opt_empty : matches ws_opt "".
Proof. apply matches_ws_opt. by left. Qed.

Lemma matches_id_wildcard_empty : matches id_wildcard "".
Proof. apply matches_id_wildcard. constructor. Qed.

Lemma matches_id_wildcard_space : matches id_wildcard " ".
Proof. apply matches_id_wildcard. by repeat constructor. Qed.

Lemma occurs_intro r a m b : matches r m -> occurs r (a +:+ m +:+ b).
Proof. intros H. by exists a, m, b. Qed.

Lemma matches_full_plain v rf p :
  matches (seq_re (full_items v rf p)) (pretty v +:+ " " +:+ rf +:+ " " +:+ p).
Proof.
  apply seq_re_spec. unfold full_items.
  apply matches_seq_lits_intro.
  apply (matches_seq_item_intro _ _ " "); [apply matches_ws_plus_space|].
  apply matches_seq_lits_intro.
  apply (matches_seq_item_intro _ _ " "); [apply matches_ws_plus_space|].
  rewrite <-(sapp_nil_r p) at 2. apply matches_seq_lits_intro.
  apply matches_seq_last, matches_ws_opt_empty.
Qed.

Lemma matches_shortform_plain ag v rf p (comma : bool) :
  matches (seq_re (shortform_items ag v rf p))
    (ag +:+ " " +:+ pretty v +:+ " " +:+ rf +:+
     (if comma then "," else "") +:+ " at " +:+ p).
Proof.
  apply seq_re_spec. unfold shortform_items.
  apply matches_seq_lits_intro.
  apply (matches_seq_item_intro _ _ " "); [apply matches_ws_plus_space|].
  apply matches_seq_lits_intro.
  apply (matches_seq_item_intro _ _ " "); [apply matches_ws_plus_space|].
  apply matches_seq_lits_intro.
  apply matches_seq_item_intro.
  { apply matches_comma_opt. destruct comma; auto. }
  apply (matches_seq_item_intro _ _ " "); [apply matches_ws_plus_space|].
  apply (matches_seq_lits_intro "at").
  apply (matches_seq_item_intro _ _ " "); [apply matches_ws_plus_space|].
  rewrite <-(sapp_nil_r p) at 2. apply matches_seq_lits_intro.
  apply matches_seq_last, matches_ws_opt_empty.
Qed.

Lemma matches_supra_plain c ag :
  matches (seq_re (supra_items c ag)) (plain_text (SupraCitation c ag) false).
Proof.
  apply seq_re_spec. unfold supra_items, plain_text.
  apply matches_seq_lits_intro.
  apply (matches_seq_item_intro _ _ " "); [apply matches_ws_plus_space|].
  assert (forall s,
             matches_seq ([ws_opt]) s ->
             matches_seq (supra_page_items c ++ [ws_opt])
               ((if truthy (of_opt_str (page c))
                 then ", at " +:+ py_str (of_opt_str (page c)) else "") +:+ s))
    as Hpage.
  { intros s Hs. unfold supra_page_items.
    destruct (page c) as [p|]; cbn [of_opt_str truthy py_str]; [|done].
    destruct (String.eqb p ""); cbn [negb]; [done|].
    rewrite sapp_assoc.
    apply (matches_seq_lits_intro ",").
    apply (matches_seq_item_intro _ _ " "); [apply matches_ws_plus_space|].
    apply (matches_seq_lits_intro "at").
    apply (matches_seq_item_intro _ _ " "); [apply matches_ws_plus_space|].
    by apply matches_seq_lits_intro. }
  assert (forall s,
             matches_seq (lit_items "supra" ++ supra_page_items c ++ [ws_opt]) s ->
             matches_seq (supra_volume_items c ++ lit_items "supra" ++
                          supra_page_items c ++ [ws_opt])
               ((if truthy (of_opt_int (volume c))
                 then py_str (of_opt_int (volume c)) +:+ " " else "") +:+ s))
    as Hvol.
  { intros s Hs. unfold supra_volume_items.
    destruct (volume c) as [v|]; cbn [of_opt_int truthy py_str]; [|done].
    destruct (v =? 0)%Z; cbn [negb]; [done|].
    rewrite sapp_assoc, <-app_assoc.
    apply matches_seq_lits_intro.
    by apply (matches_seq_item_intro _ _ " "); [apply matches_ws_plus_space|]. }
  apply Hvol. apply (matches_seq_lits_intro "supra").
  rewrite <-(sapp_nil_r (if truthy _ then _ else _)).
  apply Hpage. apply matches_seq_last, matches_ws_opt_empty.
Qed.

Lemma matches_id_after_plain toks rest s :
  toks <> [] -> matches_seq rest s ->
  matches_seq (id_after_items toks ++ rest) (join " " toks +:+ s).
Proof.
  intros Hne Hs. induction toks as [|t toks IH]; [done|].
  destruct toks as [|t' toks].
  - cbn [id_after_items join]. by apply matches_seq_lits_intro.
  - change (id_after_items (t :: t' :: toks))
      with (lit_items t ++ [id_wildcard] ++ id_after_items (t' :: toks)).
    change (join " " (t :: t' :: toks))
      with (t +:+ " " +:+ join " " (t' :: toks)).
    rewrite <-!app_assoc, !sapp_assoc.
    apply matches_seq_lits_intro.
    apply (matches_seq_item_intro _ _ " "); [apply matches_id_wildcard_space|].
    by apply IH.
Qed.

Lemma matches_id_plain idt toks :
  matches (seq_re (id_items idt toks)) (join " " (idt :: toks)).
Proof.
  apply seq_re_spec. unfold id_items.
  destruct toks as [|t toks].
  - replace (join " " [idt]) with ("" +:+ idt +:+ "")
      by (cbn; apply sapp_nil_r).
    apply matches_seq_item_intro; [apply matches_id_wildcard_empty|].
    apply matches_seq_lits_intro.
    apply (matches_seq_item_intro _ _ ""); [apply matches_id_wildcard_empty|].
    apply matches_seq_last, matches_ws_opt_empty.
  - replace (join " " (idt :: t :: toks))
      with ("" +:+ idt +:+ " " +:+ join " " (t :: toks) +:+ "")
      by (by rewrite sapp_nil_r).
    apply matches_seq_item_intro; [apply matches_id_wildcard_empty|].
    apply matches_seq_lits_intro.
    apply (matches_seq_item_intro _ _ " "); [apply matches_id_wildcard_space|].
    apply matches_id_after_plain; [done|].
    apply matches_seq_last, matches_ws_opt_empty.
Qed.

Lemma as_regex_ok_ready x p : as_regex x = Ok p -> regex_ready x.
Proof.
  destruct x as [c|c ag|c ag|c idt after lnk]; cbn [regex_ready as_regex].
  - unfold FullCitation_as_regex.
    destruct (volume c), (reporter_found c), (page c); try discriminate; eauto.
  - unfold ShortformCitation_as_regex.
    destruct (volume c), (reporter_found c), (page c); try discriminate; eauto.
  - done.
  - unfold IdCitation_as_regex. destruct idt, after; try discriminate; eauto.
Qed.

(** X16: whatever characters the tokens have, the pattern that
    [as_regex] returns is a well-formed pattern, and it is found in
    every text that has the tokens of the citation separated by single
    spaces (with or without the comma before "at" in a short form
    citation). *)
Theorem as_regex_finds_plain_text (x : citation) (p : string)
    (comma : bool) (before after : string) :
  as_regex x = Ok p ->
  exists r,
    compile p = Some r /\
    occurs r (before +:+ plain_text x comma +:+ after).
Proof.
  intros Hp. pose proof (as_regex_ok_ready x p Hp) as Hr.
  destruct x as [c|c ag|c ag|c idt toks lnk]; cbn [regex_ready] in Hr.
  - destruct Hr as ([v Hv] & [rf Hrf] & [pg Hpg]).
    destruct (compile_full c v rf pg Hv Hrf Hpg) as (p' & Hp' & Hc).
    rewrite Hp in Hp'. injection Hp' as <-.
    eexists. split; [exact Hc|]. apply occurs_intro.
    cbn [plain_text]. rewrite Hv, Hrf, Hpg. apply matches_full_plain.
  - destruct Hr as ([v Hv] & [rf Hrf] & [pg Hpg]).
    destruct (compile_shortform c ag v rf pg Hv Hrf Hpg) as (p' & Hp' & Hc).
    rewrite Hp in Hp'. injection Hp' as <-.
    eexists. split; [exact Hc|]. apply occurs_intro.
    cbn [plain_text]. rewrite Hv, Hrf, Hpg. apply matches_shortform_plain.
  - destruct (compile_supra c ag) as (p' & Hp' & Hc).
    rewrite Hp in Hp'. injection Hp' as <-.
    eexists. split; [exact Hc|]. apply occurs_intro.
    apply matches_supra_plain.
  - destruct Hr as ([i ->] & [l ->]).
    destruct (compile_id c i l lnk) as (p' & Hp' & Hc).
    rewrite Hp in Hp'. injection Hp' as <-.
    eexists. split; [exact Hc|]. apply occurs_intro.
    apply matches_id_plain.
Qed.

(** The short form pattern of Adarand in a sentence. *)
Lemma as_regex_finds_plain_text_witness :
  exists r,
    compile adarand_short_pattern = Some r /\
    occurs r ("See " +:+ plain_text adarand_short true +:+ ".").
Proof.
  apply (as_regex_finds_plain_text adarand_short). reflexivity.
Defined.

(** ** The groups of the pattern and the references of the markup *)

Lemma counts_app p1 p2 n1 n2 :
  counts p1 n1 -> counts p2 n2 -> counts (p1 +:+ p2) (n1 + n2).
Proof. intros H1 H2 rest. rewrite sapp_assoc, H1, H2. lia. Qed.

Lemma counts_escape s : counts (escape s) 0.
Proof. intros rest. by rewrite lex_escape, count_open_app, count_open_lits. Qed.

Lemma counts_numeral (z : Z) : counts (pretty z) 0.
Proof.
  intros rest.
  by rewrite lex_numeral, count_open_app, count_open_lits
    by apply pretty_Z_numeral.
Qed.

Lemma counts_nil : counts "" 0.
Proof. done. Qed.

Lemma counts_groups p n : counts p n -> count_groups p = n.
Proof.
  intros H. unfold count_groups. rewrite <-(sapp_nil_r p), H. cbn. lia.
Qed.

Lemma count_groups_full (v : Z) rf p :
  count_groups (pretty v +:+ "(\s+)" +:+ escape rf +:+ "(\s+)" +:+ escape p
                +:+ "(\s?)") = 3.
Proof.
  apply counts_groups.
  apply (counts_app _ _ 0 3); [apply counts_numeral|].
  apply (counts_app "(\s+)" _ 1 2); [done|].
  apply (counts_app _ _ 0 2); [apply counts_escape|].
  apply (counts_app "(\s+)" _ 1 1); [done|].
  apply (counts_app _ _ 0 1); [apply counts_escape|done].
Qed.

Lemma count_groups_shortform ag (v : Z) rf p :
  count_groups (escape ag +:+ "(\s+)" +:+ pretty v +:+ "(\s+)" +:+ escape rf
                +:+ "(,?)(\s+)at(\s+)" +:+ escape p +:+ "(\s?)") = 6.
Proof.
  apply counts_groups.
  apply (counts_app _ _ 0 6); [apply counts_escape|].
  apply (counts_app "(\s+)" _ 1 5); [done|].
  apply (counts_app _ _ 0 5); [apply counts_numeral|].
  apply (counts_app "(\s+)" _ 1 4); [done|].
  apply (counts_app _ _ 0 4); [apply counts_escape|].
  apply (counts_app "(,?)(\s+)at(\s+)" _ 3 1); [done|].
  apply (counts_app _ _ 0 1); [apply counts_escape|done].
Qed.

Lemma count_groups_supra c ag :
  count_groups (escape ag +:+ "(\s+)" +:+ supra_volume_part c +:+ "supra" +:+
                supra_page_part c +:+ "(\s?)") = supra_groups c.
Proof.
  apply counts_groups. unfold supra_groups.
  set (nv := if truthy (of_opt_int (volume c)) then 1 else 0).
  set (np := if truthy (of_opt_str (page c)) then 2 else 0).
  replace (2 + nv + np) with (0 + (1 + (nv + (0 + (np + 1))))) by lia.
  apply counts_app; [apply counts_escape|].
  apply (counts_app "(\s+)"); [done|].
  apply counts_app.
  { unfold supra_volume_part, nv.
    destruct (volume c) as [v|]; cbn [of_opt_int truthy]; [|done].
    destruct (v =? 0)%Z; cbn [negb]; [done|].
    apply (counts_app _ "(\s+)" 0 1); [apply counts_numeral|done]. }
  apply (counts_app "supra"); [done|].
  apply counts_app; [|done].
  unfold supra_page_part, np.
  destruct (page c) as [p|]; cbn [of_opt_str truthy]; [|done].
  destruct (String.eqb p ""); cbn [negb]; [done|].
  apply (counts_app ",(\s+)at(\s+)" _ 2 0); [done|apply counts_escape].
Qed.

Ltac scan_refs_num :=
  repeat first
    [ rewrite backrefs_gref
    | rewrite backrefs_skip by assumption
    | rewrite backrefs_skip by apply py_str_int_lacks_backslash
    | rewrite backrefs_skip by (by apply pretty_lacks)
    | progress cbn ].

Lemma full_markup_refs c v :
  tidy (FullCitation c) ->
  backrefs (open_tag c +:+ link c (full_inner c v) +:+ "</span>")
  = Some (group_names 3).
Proof.
  unfold tidy. cbn [base text_fields]. intros Ht. split_forall.
  unfold backrefs, open_tag, link, anchor, full_inner, span.
  destruct (truthy (of_opt_str (match_url c)));
    rewrite !sapp_assoc; scan_refs_num; reflexivity.
Qed.

Lemma shortform_markup_refs c ag v :
  tidy (ShortformCitation c ag) ->
  backrefs (open_tag c +:+ span "antecedent_guess" ag +:+ gref 1 +:+
            link c (shortform_inner c v) +:+ "</span>")
  = Some (group_names 6).
Proof.
  unfold tidy. cbn [base text_fields]. intros Ht. split_forall.
  unfold backrefs, open_tag, link, anchor, shortform_inner, span.
  destruct (truthy (of_opt_str (match_url c)));
    rewrite !sapp_assoc; scan_refs_num; reflexivity.
Qed.

Lemma supra_markup_refs c ag :
  tidy (SupraCitation c ag) ->
  backrefs (open_tag c +:+ link c (supra_inner c ag) +:+ "</span>")
  = Some (group_names (supra_groups c)).
Proof.
  unfold tidy. cbn [base text_fields]. intros Ht. split_forall.
  unfold backrefs, open_tag, link, anchor, supra_inner, supra_groups, span.
  destruct (volume c) as [v|]; cbn [of_opt_int truthy py_str];
    [destruct (v =? 0)%Z|]; cbn [negb];
    destruct (truthy (of_opt_str (page c)));
    destruct (truthy (of_opt_str (match_url c)));
    rewrite !sapp_assoc; scan_refs_num; reflexivity.
Qed.

Lemma Ok_inj {A} (a b : A) : Ok a = Ok b -> a = b.
Proof. by intros [= ->]. Qed.

(** X17: the markup refers to each group of the pattern once, from the
    first to the last in their order, for every object from which both
    are generated: a full, short form or supra citation, or an id
    citation with some token after the id token (the attributes copied
    into the markup having no backslash). *)
Theorem markup_refers_to_groups (x : citation) (p h : string) :
  as_regex x = Ok p -> as_html x = Ok h ->
  tidy x -> has_after_token x ->
  backrefs h = Some (group_names (count_groups p)).
Proof.
  intros Hp Hh Ht Ha. pose proof (as_regex_ok_ready x p Hp) as Hr.
  destruct x as [c|c ag|c ag|c idt toks lnk];
    cbn [regex_ready has_after_token] in Hr, Ha.
  - destruct Hr as ([v Hv] & [rf Hrf] & [pg Hpg]).
    rewrite (FullCitation_as_regex_shape c v rf pg) in Hp by done.
    rewrite (FullCitation_as_html_shape c v) in Hh by done.
    apply Ok_inj in Hp, Hh. subst p h.
    rewrite count_groups_full. by apply full_markup_refs.
  - destruct Hr as ([v Hv] & [rf Hrf] & [pg Hpg]).
    rewrite (ShortformCitation_as_regex_shape c ag v rf pg) in Hp by done.
    rewrite (ShortformCitation_as_html_shape c ag v) in Hh by done.
    apply Ok_inj in Hp, Hh. subst p h.
    rewrite count_groups_shortform. by apply shortform_markup_refs.
  - rewrite SupraCitation_as_regex_shape in Hp.
    rewrite SupraCitation_as_html_shape in Hh.
    apply Ok_inj in Hp, Hh. subst p h.
    rewrite count_groups_supra. by apply supra_markup_refs.
  - destruct Hr as ([i ->] & [l ->]).
    rewrite IdCitation_as_regex_shape in Hp.
    rewrite IdCitation_as_html_shape in Hh.
    apply Ok_inj in Hp, Hh. subst p h.
    rewrite count_groups_id_pattern.
    replace (3 + pred (length l)) with (length l + 2)
      by (destruct l; [done|simpl; lia]).
    change (gref 1) with "\g<1>". by apply id_markup_refs.
Qed.

(** The supra citation "Adarand, supra, at 240": four groups. *)
Lemma markup_refers_to_groups_witness :
  exists h,
    as_html supra_at_240 = Ok h /\
    backrefs h = Some (group_names (count_groups supra_at_240_pattern)) /\
    count_groups supra_at_240_pattern = 4.
Proof.
  eexists. split; [reflexivity|]. split; [|reflexivity].
  apply (markup_refers_to_groups supra_at_240);
    first [reflexivity | exact I | repeat constructor].
Defined.

(** ** Expanding the markup for a match *)

Lemma expand_skip env s rest :
  str_has "\" s = false ->
  expand_go env TText (s +:+ rest) = String.append s <$> expand_go env TText rest.
Proof.
  induction s as [|c s IH];
    [simpl String.append; destruct (expand_go env TText rest); reflexivity|].
  cbn [str_has]. intros [Hc Hs]%orb_false_iff.
  simpl String.append. cbn [expand_go]. rewrite Ascii.eqb_sym, Hc, IH by done.
  destruct (expand_go env TText rest); reflexivity.
Qed.

Lemma expand_name env acc s rest :
  str_has ">" s = false ->
  expand_go env (TName acc) (s +:+ String ">" rest) =
    g ← sassoc (acc +:+ s) env; String.append g <$> expand_go env TText rest.
Proof.
  revert acc. induction s as [|c s IH]; intros acc.
  - intros _. simpl String.append. cbn [expand_go].
    replace (Ascii.eqb ">" ">") with true by reflexivity.
    by rewrite sapp_nil_r.
  - cbn [str_has]. intros [Hc Hs]%orb_false_iff.
    simpl String.append. cbn [expand_go]. rewrite Ascii.eqb_sym, Hc.
    rewrite IH by done. by rewrite sapp_assoc.
Qed.

Lemma expand_gref env z rest g :
  sassoc (pretty z) env = Some g ->
  expand_go env TText (gref z +:+ rest)
  = String.append g <$> expand_go env TText rest.
Proof.
  intros Hg. unfold gref. rewrite !sapp_assoc.
  change (expand_go env TText ("\g<" +:+ pretty z +:+ ">" +:+ rest))
    with (expand_go env (TName "") (pretty z +:+ String ">" rest)).
  rewrite expand_name by (by apply pretty_lacks).
  simpl String.append. by rewrite Hg.
Qed.

Lemma sassoc_group_env_from k groups i g :
  groups !! i = Some g ->
  sassoc (pretty (Z.of_nat (k + S i)))
    (imap (fun j h => (pretty (Z.of_nat (k + S j)), h)) groups) = Some g.
Proof.
  revert k i. induction groups as [|h groups IH]; intros k i; [done|].
  cbn [imap sassoc]. destruct i as [|i]; cbn [lookup list_lookup].
  - intros [= ->]. by rewrite String.eqb_refl.
  - intros Hi.
    assert (String.eqb (pretty (Z.of_nat (k + S (S i))))
              (pretty (Z.of_nat (k + 1))) = false) as ->.
    { apply String.eqb_neq. intros H%(inj pretty). lia. }
    assert (imap ((fun j h0 => (pretty (Z.of_nat (k + S j)), h0)) ∘ S) groups
            = imap (fun j h0 => (pretty (Z.of_nat (S k + S j)), h0)) groups)
      as ->.
    { apply imap_ext. intros j y _. unfold compose.
      by replace (k + S (S j))%nat with (S k + S j)%nat by lia. }
    replace (k + S (S i))%nat with (S k + S i)%nat by lia. by apply IH.
Qed.

Lemma sassoc_group_env groups i g :
  groups !! i = Some g ->
  sassoc (pretty (Z.of_nat (S i))) (group_env groups) = Some g.
Proof. apply (sassoc_group_env_from 0). Qed.

(** ** The text outside the tags *)

Lemma strip_app st a b :
  strip_go st (a +:+ b) = strip_go st a +:+ strip_go (tag_state st a) b.
Proof.
  revert st. induction a as [|c a IH]; intros st; [done|].
  simpl String.append. cbn [strip_go tag_state].
  destruct st; [apply IH|]. destruct (Ascii.eqb c "<"); [apply IH|].
  simpl String.append. by rewrite IH.
Qed.

Lemma tag_state_app st a b :
  tag_state st (a +:+ b) = tag_state (tag_state st a) b.
Proof.
  revert st. induction a as [|c a IH]; intros st; [done|].
  simpl String.append. cbn [tag_state]. destruct st; apply IH.
Qed.

Lemma strip_text s :
  str_has "<" s = false ->
  strip_go false s = s /\ tag_state false s = false.
Proof.
  induction s as [|c s IH]; [done|]. cbn [str_has].
  intros [Hc Hs]%orb_false_iff. cbn [strip_go tag_state].
  rewrite Ascii.eqb_sym, Hc. destruct (IH Hs) as [-> ->]. done.
Qed.

Lemma strip_in_tag s :
  str_has ">" s = false ->
  strip_go true s = "" /\ tag_state true s = true.
Proof.
  induction s as [|c s IH]; [done|]. cbn [str_has].
  intros [Hc Hs]%orb_false_iff. cbn [strip_go tag_state].
  rewrite Ascii.eqb_sym, Hc. cbn [negb]. by apply IH.
Qed.

(** ** Matches with their groups *)

Lemma captures_lits t rest m gs :
  captures (lit_items t ++ rest) m gs <->
  exists s, m = t +:+ s /\ captures rest s gs.
Proof.
  revert m. unfold lit_items. induction t as [|c t IH]; intros m; cbn [chars].
  - cbn. split; [eauto|]. by intros (s & -> & H).
  - rewrite fmap_cons. cbn [app]. split.
    + inversion 1 as [|? ? s ? H' |]; subst.
      apply IH in H' as (s' & -> & H'). eauto.
    + intros (s & -> & H). simpl String.append. constructor. apply IH. eauto.
Qed.

Lemma captures_group r rest m gs :
  captures ([Group r] ++ rest) m gs <->
  exists w s gs',
    m = w +:+ s /\ gs = w :: gs' /\ matches (Group r) w /\ captures rest s gs'.
Proof.
  cbn [app]. split.
  - inversion 1; subst. eauto 8.
  - intros (w & s & gs' & -> & -> & Hw & H). by constructor.
Qed.

Lemma captures_lit c rest m gs :
  captures (Lit c :: rest) m gs <->
  exists s, m = String c s /\ captures rest s gs.
Proof.
  split; [inversion 1; subst; eauto|]. intros (s & -> & H). by constructor.
Qed.

Lemma captures_nil m gs : captures [] m gs <-> m = "" /\ gs = [].
Proof.
  split; [by inversion 1|]. intros [-> ->]. constructor.
Qed.

Lemma captures_matches items m gs :
  captures items m gs -> matches (seq_re items) m.
Proof.
  intros H. apply seq_re_spec. induction H.
  - constructor.
  - change (String c s) with (String c "" +:+ s). constructor; [constructor|done].
  - by constructor.
Qed.

(** ** Stripping what the markup is made of *)

Lemma strip_field f rest :
  str_has "<" f = false ->
  strip_go false (f +:+ rest) = f +:+ strip_go false rest.
Proof. intros [H1 H2]%strip_text. by rewrite strip_app, H1, H2. Qed.

Lemma strip_attr f rest :
  str_has ">" f = false -> strip_go true (f +:+ rest) = strip_go true rest.
Proof. intros [H1 H2]%strip_in_tag. by rewrite strip_app, H1, H2. Qed.

Lemma strip_balanced w rest :
  tag_state false w = false ->
  strip_go false (w +:+ rest) = strip_go false w +:+ strip_go false rest.
Proof. intros H. by rewrite strip_app, H. Qed.

Lemma strip_pretty (z : Z) rest :
  strip_go false (pretty z +:+ rest) = pretty z +:+ strip_go false rest.
Proof. apply strip_field. by apply pretty_lacks. Qed.

Lemma strip_gref z rest :
  strip_go false (gref z +:+ rest) = "\g" +:+ strip_go false rest.
Proof.
  unfold gref. rewrite !sapp_assoc.
  change (strip_go false ("\g<" +:+ pretty z +:+ ">" +:+ rest))
    with ("\g" +:+ strip_go true (pretty z +:+ String ">" rest)).
  rewrite strip_attr by (by apply pretty_lacks). reflexivity.
Qed.

Lemma is_space_not_lt c : is_space c = true -> Ascii.eqb "<" c = false.
Proof.
  intros Hc. destruct (Ascii.eqb_spec "<" c) as [<-|]; [discriminate Hc|done].
Qed.

Lemma spaces_lack_lt w : str_all is_space w = true -> str_has "<" w = false.
Proof. intros H. eapply str_all_lacks, H. reflexivity. Qed.

Lemma ws_plus_text w :
  matches ws_plus w -> str_has "<" w = false.
Proof. apply ws_plus_no_tag. Qed.

Lemma ws_opt_text w : matches ws_opt w -> str_has "<" w = false.
Proof.
  intros [->|(c & -> & Hc)]%matches_ws_opt; [done|].
  cbn [str_has]. by rewrite is_space_not_lt.
Qed.

Lemma comma_opt_text w : matches comma_opt w -> str_has "<" w = false.
Proof. by intros [->| ->]%matches_comma_opt. Qed.

Lemma is_word_not_gt c : is_word c = true -> Ascii.eqb ">" c = false.
Proof.
  intros Hc. destruct (Ascii.eqb_spec ">" c) as [<-|]; [discriminate Hc|done].
Qed.

Lemma tag_balanced t : is_tag t -> tag_state false t = false.
Proof.
  intros (slash & name & -> & Hs & _ & Hw).
  assert (str_has ">" name = false) as Hn.
  { eapply str_all_lacks, Hw. reflexivity. }
  destruct (strip_in_tag name Hn) as [_ Hst].
  destruct Hs as [-> | ->].
  - change (tag_state false ("<" +:+ "" +:+ name +:+ ">"))
      with (tag_state true (name +:+ ">")).
    by rewrite tag_state_app, Hst.
  - change (tag_state false ("<" +:+ "/" +:+ name +:+ ">"))
      with (tag_state true (name +:+ ">")).
    by rewrite tag_state_app, Hst.
Qed.

Lemma ws_html_comma_balanced w :
  ws_html_comma w -> tag_state false w = false.
Proof.
  induction 1 as [|c s Hc _ IH|s _ IH|t s Ht _ IH]; [done|..].
  - cbn [tag_state]. by rewrite Ascii.eqb_sym, is_space_not_lt.
  - exact IH.
  - by rewrite tag_state_app, tag_balanced.
Qed.

Lemma id_wildcard_balanced w :
  matches id_wildcard w -> tag_state false w = false.
Proof. intros H%matches_id_wildcard. by apply ws_html_comma_balanced. Qed.

Lemma py_str_int_lacks_gt o : str_has ">" (py_str (of_opt_int o)) = false.
Proof. destruct o; [by apply pretty_lacks|done]. Qed.

Lemma plain_str_spec s :
  plain_str s = true ->
  str_has "<" s = false /\ str_has ">" s = false /\ str_has "\" s = false.
Proof.
  unfold plain_str. intros [[H1 H2]%andb_true_iff H3]%andb_true_iff.
  by rewrite !negb_true_iff in *.
Qed.

Ltac inv_captures H :=
  rewrite <-?List.app_assoc in H; cbn [app] in H;
  repeat first
    [ apply captures_nil in H as [-> ->]
    | apply captures_lit in H as (? & -> & H)
    | apply (captures_group _ []) in H as (? & ? & ? & -> & -> & ? & H)
    | apply captures_lits in H as (? & -> & H); cbn [app] in H
    | apply (captures_group _ (_ :: _)) in H as (? & ? & ? & -> & -> & ? & H);
      cbn [app] in H
    | apply (captures_group _ (_ ++ _)) in H as (? & ? & ? & -> & -> & ? & H);
      cbn [app] in H ].

Ltac groups_balanced :=
  repeat match goal with
    | H : matches (Group (Plus Space)) _ |- _ =>
        apply ws_plus_text, strip_text in H as [_ H]
    | H : matches (Group (Opt Space)) _ |- _ =>
        apply ws_opt_text, strip_text in H as [_ H]
    | H : matches (Group (Opt (Lit _))) _ |- _ =>
        apply comma_opt_text, strip_text in H as [_ H]
    | H : matches (Group (Star _)) _ |- _ =>
        apply id_wildcard_balanced in H
    end.

Ltac scan_expand :=
  repeat first
    [ erewrite expand_gref by reflexivity
    | rewrite expand_skip by assumption
    | rewrite expand_skip by apply py_str_int_lacks_backslash
    | rewrite expand_skip by (by apply pretty_lacks)
    | progress cbn ].

Ltac scan_strip :=
  repeat first
    [ rewrite strip_attr by assumption
    | rewrite strip_attr by apply py_str_int_lacks_gt
    | rewrite strip_field by assumption
    | rewrite strip_pretty
    | rewrite strip_balanced by assumption
    | progress cbn ].

Lemma slength_app (a b : string) :
  String.length (a +:+ b) = String.length a + String.length b.
Proof. induction a as [|c a IH]; [done|]. cbn. by rewrite IH. Qed.

Lemma sapp_cancel_l (a x y : string) : a +:+ x = a +:+ y -> x = y.
Proof. induction a as [|c a IH]; [done|]. intros [= H]. by apply IH. Qed.

Lemma sapp_cancel_r (x y b : string) : x +:+ b = y +:+ b -> x = y.
Proof.
  revert y. induction x as [|c x IH]; intros [|d y] H.
  - done.
  - apply (f_equal String.length) in H. rewrite !slength_app in H.
    cbn [String.length] in H. lia.
  - apply (f_equal String.length) in H. rewrite !slength_app in H.
    cbn [String.length] in H. lia.
  - injection H as -> H. f_equal. by apply IH.
Qed.

Ltac plain_fields :=
  split_forall;
  repeat match goal with
    | H : plain_str _ = true |- _ => apply plain_str_spec in H as (? & ? & ?)
    end.

Lemma full_round_trip c v rf pg m gs :
  safe (FullCitation c) ->
  str_has "<" rf = false -> page c = Some pg ->
  captures (full_items v rf pg) m gs ->
  exists out,
    expand (open_tag c +:+ link c (full_inner c v) +:+ "</span>") gs = Some out
    /\ (strip_tags out = strip_tags m <-> py_str (of_opt_str (reporter c)) = rf).
Proof.
  unfold safe. cbn [base text_fields]. intros Hs Hrf Hpg H.
  rewrite Hpg in Hs. cbn [of_opt_str py_str] in Hs. plain_fields.
  unfold full_items in H. inv_captures H. groups_balanced.
  unfold expand, open_tag, link, anchor, full_inner, span.
  rewrite Hpg. cbn [of_opt_str py_str].
  set (rf' := py_str (of_opt_str (reporter c))) in *. clearbody rf'.
  destruct (truthy (of_opt_str (match_url c)));
    rewrite !sapp_assoc; scan_expand; (eexists; split; [reflexivity|]);
    unfold strip_tags; scan_strip;
    (split; [|by intros ->]); intros Heq;
    repeat apply sapp_cancel_l in Heq; by apply sapp_cancel_r in Heq.
Qed.

Lemma shortform_round_trip c ag v rf pg m gs :
  safe (ShortformCitation c ag) ->
  str_has "<" rf = false -> page c = Some pg ->
  captures (shortform_items ag v rf pg) m gs ->
  exists out,
    expand (open_tag c +:+ span "antecedent_guess" ag +:+ gref 1 +:+
            link c (shortform_inner c v) +:+ "</span>") gs = Some out
    /\ (strip_tags out = strip_tags m <-> py_str (of_opt_str (reporter c)) = rf).
Proof.
  unfold safe. cbn [base text_fields]. intros Hs Hrf Hpg H.
  rewrite Hpg in Hs. cbn [of_opt_str py_str] in Hs. plain_fields.
  unfold shortform_items in H. inv_captures H. groups_balanced.
  unfold expand, open_tag, link, anchor, shortform_inner, span.
  rewrite Hpg. cbn [of_opt_str py_str].
  set (rf' := py_str (of_opt_str (reporter c))) in *. clearbody rf'.
  destruct (truthy (of_opt_str (match_url c)));
    rewrite !sapp_assoc; scan_expand; (eexists; split; [reflexivity|]);
    unfold strip_tags; scan_strip;
    (split; [|by intros ->]); intros Heq;
    repeat apply sapp_cancel_l in Heq; by apply sapp_cancel_r in Heq.
Qed.

Lemma supra_round_trip c ag m gs :
  safe (SupraCitation c ag) ->
  captures (supra_items c ag) m gs ->
  exists out,
    expand (open_tag c +:+ link c (supra_inner c ag) +:+ "</span>") gs
      = Some out
    /\ strip_tags out = strip_tags m.
Proof.
  unfold safe. cbn [base text_fields]. intros Hs H.
  split_forall.
  repeat match goal with
    | H : plain_str _ = true |- _ => apply plain_str_spec in H as (? & ? & ?)
    end.
  unfold supra_items, supra_volume_items, supra_page_items in H.
  unfold expand, open_tag, link, anchor, supra_inner, span.
  destruct (volume c) as [v|]; cbn [of_opt_int truthy py_str] in *;
    [destruct (v =? 0)%Z|]; cbn [negb] in *;
    (destruct (page c) as [p|]; cbn [of_opt_str truthy py_str] in *;
     [destruct (String.eqb p "")|]; cbn [negb] in *);
    inv_captures H; groups_balanced;
    destruct (truthy (of_opt_str (match_url c)));
    rewrite !sapp_assoc; scan_expand; (eexists; split; [reflexivity|]);
    unfold strip_tags; scan_strip; reflexivity.
Qed.

(** ** Id citations: any number of tokens *)

Local Arguments group_env : simpl never.
Local Arguments after_token_markup : simpl never.
Local Arguments weave_all : simpl never.

Lemma sapp_nil_l (s : string) : "" +:+ s = s.
Proof. reflexivity. Qed.

Lemma captures_id_after toks s gs :
  toks <> [] ->
  captures (id_after_items toks ++ [ws_opt]) s gs ->
  length gs = length toks /\
  Forall (fun w => tag_state false w = false) gs /\
  forall w, w +:+ s = weave_all (w :: gs) toks.
Proof.
  revert s gs. induction toks as [|t toks IH]; intros s gs Hne H; [done|].
  destruct toks as [|t' toks].
  - cbn [id_after_items] in H. inv_captures H. groups_balanced.
    repeat split; [by repeat constructor|].
    intros w. by rewrite sapp_nil_r.
  - change (id_after_items (t :: t' :: toks))
      with (lit_items t ++ [id_wildcard] ++ id_after_items (t' :: toks)) in H.
    rewrite <-!List.app_assoc in H.
    apply captures_lits in H as (s1 & -> & H).
    apply captures_group in H as (w' & s2 & gs' & -> & -> & Hw' & H).
    apply IH in H as (Hlen & Hbal & Hs); [|done].
    apply id_wildcard_balanced in Hw'.
    split; [cbn [length]; by rewrite Hlen|]. split; [by constructor|].
    intros w. rewrite Hs. reflexivity.
Qed.

Lemma weave_balanced ws toks :
  Forall (fun w => tag_state false w = false) ws ->
  Forall (fun t => str_has "<" t = false) toks ->
  tag_state false (weave_all ws toks) = false.
Proof.
  intros Hws. revert toks. induction Hws as [|w ws Hw Hws IH]; intros toks Ht.
  - by destruct toks.
  - destruct Ht as [|t toks Ht Hts].
    + destruct ws; [exact Hw|done].
    + change (weave_all (w :: ws) (t :: toks))
        with (w +:+ t +:+ weave_all ws toks).
      rewrite !tag_state_app, Hw.
      apply strip_text in Ht as [_ ->]. by apply IH.
Qed.

Lemma expand_after_refs gs k toks rest :
  Forall (fun t => str_has "\" t = false) toks ->
  length gs = S k + length toks + 1 ->
  expand_go (group_env gs) TText
    (after_refs k toks +:+ gref (Z.of_nat (k + length toks) + 2) +:+ rest)
  = String.append (weave_all (drop (S k) gs) toks)
      <$> expand_go (group_env gs) TText rest.
Proof.
  intros Ht. revert k. induction Ht as [|t toks Ht Hts IH]; intros k Hlen.
  - cbn [length] in *. destruct (lookup_lt_is_Some_2 gs (S k)) as [w Hw]; [lia|].
    rewrite (drop_S _ _ _ Hw), drop_ge by lia.
    cbn [after_refs]. rewrite sapp_nil_l.
    change (weave_all [w] []) with w.
    replace (Z.of_nat (k + 0) + 2)%Z with (Z.of_nat (S (S k))) by lia.
    by rewrite (expand_gref _ _ _ w) by by apply sassoc_group_env.
  - cbn [length] in *. destruct (lookup_lt_is_Some_2 gs (S k)) as [w Hw]; [lia|].
    rewrite (drop_S _ _ _ Hw).
    change (weave_all (w :: drop (S (S k)) gs) (t :: toks))
      with (w +:+ t +:+ weave_all (drop (S (S k)) gs) toks).
    cbn [after_refs]. rewrite !sapp_assoc.
    replace (Z.of_nat k + 2)%Z with (Z.of_nat (S (S k))) by lia.
    rewrite (expand_gref _ _ _ w) by by apply sassoc_group_env.
    rewrite expand_skip by done.
    replace (k + S (length toks))%nat with (S k + length toks)%nat by lia.
    rewrite IH by lia.
    destruct (expand_go (group_env gs) TText rest); [|done].
    cbn. by rewrite !sapp_assoc.
Qed.

Lemma expand_after_markup gs toks rest :
  Forall (fun t => str_has "\" t = false) toks ->
  length gs = length toks + 2 ->
  expand_go (group_env gs) TText (after_token_markup toks +:+ rest)
  = String.append (weave_all (drop 1 gs) toks)
      <$> expand_go (group_env gs) TText rest.
Proof.
  intros Ht Hlen. unfold after_token_markup. rewrite sapp_assoc.
  apply (expand_after_refs gs 0 toks rest Ht). lia.
Qed.

Ltac scan_expand_id :=
  repeat first
    [ erewrite expand_gref by reflexivity
    | rewrite expand_after_markup by (assumption || (cbn [length]; lia))
    | rewrite expand_skip by assumption
    | rewrite expand_skip by apply py_str_int_lacks_backslash
    | progress cbn ].

Lemma id_round_trip c idt toks lnk m gs :
  safe (IdCitation c (Some idt) (Some toks) lnk) ->
  toks <> [] ->
  captures (id_items idt toks) m gs ->
  exists out,
    expand (open_tag c +:+ gref 1 +:+
            id_string c (Some idt) lnk (after_token_markup toks) +:+ "</span>")
      gs = Some out
    /\ strip_tags out = strip_tags m.
Proof.
  unfold safe. cbn [base text_fields of_opt_str py_str default].
  intros Hs Hne H.
  apply Forall_cons in Hs as [(Hu1 & Hu2 & Hu3)%plain_str_spec Hs].
  apply Forall_cons in Hs as [(Hi1 & Hi2 & Hi3)%plain_str_spec Hs].
  assert (Forall (fun t => str_has "\" t = false) toks) as Hesc.
  { eapply Forall_impl; [exact Hs|]. by intros t (_ & _ & ?)%plain_str_spec. }
  assert (Forall (fun t => str_has "<" t = false) toks) as Htxt.
  { eapply Forall_impl; [exact Hs|]. by intros t (? & _ & _)%plain_str_spec. }
  unfold id_items in H.
  apply captures_group in H as (w0 & s0 & gs0 & -> & -> & Hw0 & H).
  apply captures_lits in H as (s1 & -> & H).
  apply captures_group in H as (w1 & s2 & gs2 & -> & -> & Hw1 & H).
  apply captures_id_after in H as (Hlen & Hbal & Hs2); [|done].
  apply id_wildcard_balanced in Hw0, Hw1.
  rewrite Hs2.
  pose proof (weave_balanced (w1 :: gs2) toks (Forall_cons_2 _ _ _ Hw1 Hbal) Htxt)
    as Hwv.
  unfold expand, open_tag, id_string, anchor, span.
  cbn [of_opt_str py_str].
  destruct (truthy (of_opt_str (match_url c))); [destruct lnk|];
    rewrite !sapp_assoc; scan_expand_id; (eexists; split; [reflexivity|]);
    unfold strip_tags; scan_strip; by rewrite ?sapp_nil_r.
Qed.

(** ** The items of a pattern *)

Lemma captures_complete L m :
  Forall item L -> matches_seq L m -> exists gs, captures L m gs.
Proof.
  intros HL Hm. induction Hm as [|r rs s1 s2 Hr _ IH]; [eexists; constructor|].
  apply Forall_cons in HL as [Hi HL]. destruct (IH HL) as [gs Hgs].
  destruct Hi as [c|r].
  - apply matches_lit_inv in Hr as ->. exists gs. by constructor.
  - exists (s1 :: gs). by constructor.
Qed.

Lemma item_lits t : Forall item (lit_items t).
Proof. unfold lit_items. apply Forall_fmap, Forall_true. constructor. Qed.

Lemma item_id_after toks : Forall item (id_after_items toks).
Proof.
  induction toks as [|t toks IH]; [constructor|].
  destruct toks as [|t' toks]; [apply item_lits|].
  change (id_after_items (t :: t' :: toks))
    with (lit_items t ++ [id_wildcard] ++ id_after_items (t' :: toks)).
  apply Forall_app. split; [apply item_lits|].
  apply Forall_cons. split; [constructor|exact IH].
Qed.

Ltac items_ok :=
  repeat first
    [ apply item_lits | apply item_id_after | apply Forall_nil_2
    | apply Forall_app; split
    | apply Forall_cons; split; [constructor|] ].

Lemma items_of_items x : Forall item (items_of x).
Proof.
  destruct x as [c|c ag|c ag|c idt after lnk]; cbn [items_of].
  - unfold full_items. items_ok.
  - unfold shortform_items. items_ok.
  - unfold supra_items, supra_volume_items, supra_page_items.
    destruct (volume c) as [v|]; [destruct (v =? 0)%Z|];
      (destruct (page c) as [p|]; [destruct (String.eqb p "")|]); items_ok.
  - unfold id_items. items_ok.
Qed.

Lemma compile_items_of x p :
  as_regex x = Ok p -> compile p = Some (seq_re (items_of x)).
Proof.
  intros Hp. pose proof (as_regex_ok_ready x p Hp) as Hr.
  destruct x as [c|c ag|c ag|c idt toks lnk]; cbn [regex_ready items_of] in *.
  - destruct Hr as ([v Hv] & [rf Hrf] & [pg Hpg]).
    destruct (compile_full c v rf pg Hv Hrf Hpg) as (p' & Hp' & Hc).
    rewrite Hp in Hp'. apply Ok_inj in Hp'. subst p'.
    by rewrite Hv, Hrf, Hpg.
  - destruct Hr as ([v Hv] & [rf Hrf] & [pg Hpg]).
    destruct (compile_shortform c ag v rf pg Hv Hrf Hpg) as (p' & Hp' & Hc).
    rewrite Hp in Hp'. apply Ok_inj in Hp'. subst p'.
    by rewrite Hv, Hrf, Hpg.
  - destruct (compile_supra c ag) as (p' & Hp' & Hc).
    rewrite Hp in Hp'. apply Ok_inj in Hp'. by subst p'.
  - destruct Hr as ([i ->] & [ts ->]).
    destruct (compile_id c i ts lnk) as (p' & Hp' & Hc).
    rewrite Hp in Hp'. apply Ok_inj in Hp'. by subst p'.
Qed.

(** X18: the pattern that [as_regex] returns is well formed and is
    read as the tokens of the citation in their order, a character at a
    time, with a group after or between them. A text matches it exactly
    when it divides into these tokens and a text for each group. *)
Theorem as_regex_items (x : citation) (p : string) :
  as_regex x = Ok p ->
  compile p = Some (seq_re (items_of x)) /\
  forall m,
    matches (seq_re (items_of x)) m <-> exists gs, captures (items_of x) m gs.
Proof.
  intros Hp. split; [by apply compile_items_of|].
  intros m. split.
  - intros Hm%seq_re_spec. apply captures_complete; [apply items_of_items|done].
  - intros [gs Hgs]. by eapply captures_matches.
Qed.

(** The short form citation "Adarand, 515 U. S., at 241". *)
Lemma as_regex_items_witness :
  compile adarand_short_pattern = Some (seq_re (items_of adarand_short)) /\
  forall m,
    matches (seq_re (items_of adarand_short)) m <->
    exists gs, captures (items_of adarand_short) m gs.
Proof.
  apply (as_regex_items adarand_short). reflexivity.
Defined.

(** ** The markup of a match *)

Lemma id_at_240_captures :
  captures (items_of id_at_240) id_at_240_text id_at_240_groups.
Proof.
  apply (Cap_group _ _ "" "Id., at 240"); [by apply matchb_spec|].
  do 3 apply Cap_lit.
  apply (Cap_group _ _ ", " "at 240"); [by apply matchb_spec|].
  do 2 apply Cap_lit.
  apply (Cap_group _ _ " " "240"); [by apply matchb_spec|].
  do 3 apply Cap_lit.
  apply (Cap_group _ _ "" ""); [by apply matchb_spec|]. constructor.
Qed.

Lemma cranch_captures : captures (items_of cranch) cranch_text cranch_groups.
Proof.
  do 2 apply Cap_lit.
  apply (Cap_group _ _ " " "Cr. 1"); [by apply matchb_spec|].
  do 3 apply Cap_lit.
  apply (Cap_group _ _ " " "1"); [by apply matchb_spec|].
  apply Cap_lit.
  apply (Cap_group _ _ "" ""); [by apply matchb_spec|]. constructor.
Qed.

(** X19: the markup keeps the text. When the markup that [as_html]
    returns is expanded with the groups of a match of the pattern that
    [as_regex] returns, as [re.sub] does, every reference is to a group
    of the match, and the text outside the tags of the result is the text
    outside the tags of the match: the tokens, and between them what the
    groups captured. This holds for the attributes copied into the
    markup having none of [<], [>] and backslash, for a full or a short
    form citation whose [reporter] is its [reporter_found], and for an
    id citation with some token after the id token. *)
Theorem markup_keeps_text (x : citation) (p h m : string) (gs : list string) :
  as_regex x = Ok p -> as_html x = Ok h ->
  safe x -> has_after_token x -> reporter_as_found x ->
  captures (items_of x) m gs ->
  exists out, expand h gs = Some out /\ strip_tags out = strip_tags m.
Proof.
  intros Hp Hh Hs Ha Hf H. pose proof (as_regex_ok_ready x p Hp) as Hr.
  destruct x as [c|c ag|c ag|c idt toks lnk];
    cbn [regex_ready has_after_token reporter_as_found items_of] in *.
  - destruct Hr as ([v Hv] & [rf Hrf] & [pg Hpg]).
    rewrite (FullCitation_as_html_shape c v) in Hh by done.
    apply Ok_inj in Hh. subst h.
    rewrite Hv, Hrf, Hpg in H. cbn [default] in H.
    assert (str_has "<" rf = false) as Hclean.
    { unfold safe in Hs. cbn [base text_fields] in Hs. rewrite Hf, Hrf in Hs.
      plain_fields. done. }
    destruct (full_round_trip c v rf pg m gs Hs Hclean Hpg H)
      as (out & Hout & Heq).
    exists out. split; [done|]. apply Heq. by rewrite Hf, Hrf.
  - destruct Hr as ([v Hv] & [rf Hrf] & [pg Hpg]).
    rewrite (ShortformCitation_as_html_shape c ag v) in Hh by done.
    apply Ok_inj in Hh. subst h.
    rewrite Hv, Hrf, Hpg in H. cbn [default] in H.
    assert (str_has "<" rf = false) as Hclean.
    { unfold safe in Hs. cbn [base text_fields] in Hs. rewrite Hf, Hrf in Hs.
      plain_fields. done. }
    destruct (shortform_round_trip c ag v rf pg m gs Hs Hclean Hpg H)
      as (out & Hout & Heq).
    exists out. split; [done|]. apply Heq. by rewrite Hf, Hrf.
  - rewrite SupraCitation_as_html_shape in Hh. apply Ok_inj in Hh. subst h.
    by apply supra_round_trip.
  - destruct Hr as ([i ->] & [ts ->]).
    rewrite IdCitation_as_html_shape in Hh. apply Ok_inj in Hh. subst h.
    apply id_round_trip; [done| |done]. by intros ->.
Qed.

(** "Id., at 240": the comma and the spaces are kept. *)
Lemma markup_keeps_text_witness :
  exists out,
    expand id_at_240_html id_at_240_groups = Some out /\
    strip_tags out = strip_tags id_at_240_text.
Proof.
  apply (markup_keeps_text id_at_240 id_at_240_pattern).
  - reflexivity.
  - reflexivity.
  - repeat constructor.
  - discriminate.
  - exact I.
  - exact id_at_240_captures.
Defined.

(** X20: a full or short form citation whose [reporter] is not its
    [reporter_found] does not keep the text: the expansion of the markup
    for a match has the reporter in place of what was found (the other
    conditions being as above). *)
Theorem markup_changes_reporter (x : citation) (p h m : string)
    (gs : list string) :
  as_regex x = Ok p -> as_html x = Ok h ->
  safe x -> found_clean x -> reporter_differs x ->
  captures (items_of x) m gs ->
  exists out, expand h gs = Some out /\ strip_tags out <> strip_tags m.
Proof.
  intros Hp Hh Hs Hc Hd H. pose proof (as_regex_ok_ready x p Hp) as Hr.
  destruct x as [c|c ag|c ag|c idt toks lnk];
    cbn [regex_ready reporter_differs items_of] in *; try done.
  - destruct Hr as ([v Hv] & [rf Hrf] & [pg Hpg]).
    rewrite (FullCitation_as_html_shape c v) in Hh by done.
    apply Ok_inj in Hh. subst h.
    unfold found_clean in Hc. cbn [base] in Hc.
    rewrite Hrf in Hc, Hd. cbn [of_opt_str py_str] in Hc, Hd.
    rewrite Hv, Hrf, Hpg in H. cbn [default] in H.
    destruct (full_round_trip c v rf pg m gs Hs Hc Hpg H)
      as (out & Hout & Heq).
    exists out. split; [done|]. by intros ?%Heq.
  - destruct Hr as ([v Hv] & [rf Hrf] & [pg Hpg]).
    rewrite (ShortformCitation_as_html_shape c ag v) in Hh by done.
    apply Ok_inj in Hh. subst h.
    unfold found_clean in Hc. cbn [base] in Hc.
    rewrite Hrf in Hc, Hd. cbn [of_opt_str py_str] in Hc, Hd.
    rewrite Hv, Hrf, Hpg in H. cbn [default] in H.
    destruct (shortform_round_trip c ag v rf pg m gs Hs Hc Hpg H)
      as (out & Hout & Heq).
    exists out. split; [done|]. by intros ?%Heq.
Qed.

(** "22 Cr. 1", for the reporter "Cranch". *)
Lemma markup_changes_reporter_witness :
  exists h out,
    as_html cranch = Ok h /\
    expand h cranch_groups = Some out /\
    strip_tags out <> strip_tags cranch_text.
Proof.
  eexists.
  destruct (markup_changes_reporter cranch "22(\s+)Cr\.(\s+)1(\s?)" _
              cranch_text cranch_groups eq_refl eq_refl)
    as (out & Hout & Hne).
  - repeat constructor.
  - reflexivity.
  - discriminate.
  - exact cranch_captures.
  - exists out. split; [reflexivity|]. split; [exact Hout|exact Hne].
Defined.
